(** * Single-tile warpgroup kernels

    A model of three translation units of the repository: the dense
    [wgmma] kernel (m64n16k16), the sparse [wgmma] kernel (m64n8k32 on a
    2:4 compressed operand) and the one-dimensional load / add-one /
    store kernel.  The file first embeds the kernels, then proves facts
    about thread coordinates, the result scatter, metadata indexing,
    descriptor bases, the accumulator protocol and the copy-only
    scenario. *)

From Stdlib Require Import ZArith Lia List Bool Permutation.
From stdpp Require Import base list.

Local Open Scope Z_scope.

(** ** C integer operators

    Every index below is a C [int] (or [uint]) derived from
    [threadIdx.x].  The operators are the C ones: [/] truncates towards
    zero, [%] takes the sign of the dividend, [>>] and [&] act on the
    two's-complement representation, and [+] on a 32-bit [int] wraps on
    the device. *)

Module CInt.

Definition INT_MIN : Z := - 2 ^ 31.
Definition INT_MAX : Z := 2 ^ 31 - 1.

Definition in_range (z : Z) : Prop := INT_MIN <= z <= INT_MAX.

Definition wrap (z : Z) : Z := (z + 2 ^ 31) mod 2 ^ 32 - 2 ^ 31.

Definition add (a b : Z) : Z := wrap (a + b).
Definition div (a b : Z) : Z := Z.quot a b.
Definition rem (a b : Z) : Z := Z.rem a b.
Definition shr (a n : Z) : Z := Z.shiftr a n.
Definition band (a b : Z) : Z := Z.land a b.

End CInt.

(** ** Arrays indexed by a C integer

    A load or store outside the allocation is a fault ([None]). *)

Definition zlookup {A} (l : list A) (i : Z) : option A :=
  if i <? 0 then None else l !! Z.to_nat i.

Definition zstore {A} (l : list A) (i : Z) (v : A) : option (list A) :=
  if (0 <=? i) && (i <? Z.of_nat (length l))
  then Some (<[Z.to_nat i := v]> l)
  else None.

(** ** Launch configuration and thread coordinates

    Both compute kernels are launched as
    [kernel<<<blocks, threads_per_block>>>] with
    [threads_per_block = 32 * 4], and both start with the same lines
    deriving the coordinates of a thread from [threadIdx.x]. *)

Definition threads_per_block : Z := 32 * 4.
Definition blocks : Z := 1.

Definition warp_id (tid : Z) : Z := CInt.div tid 32.
Definition lane_id (tid : Z) : Z := CInt.rem tid 32.
Definition group_id (tid : Z) : Z := CInt.shr (lane_id tid) 2.
Definition lane_in_group (tid : Z) : Z := CInt.band (lane_id tid) 3.
(** Only the sparse kernel derives this one. *)
Definition lane_in_work_group (tid : Z) : Z := CInt.rem (lane_in_group tid) 2.

Definition valid_tid (tid : Z) : Prop := 0 <= tid < threads_per_block.

(** The thread ids of the block, in increasing order. *)
Definition all_tids : list Z := Z.of_nat <$> seq 0 (Z.to_nat threads_per_block).

(** ** Shared memory, descriptors and the tensor-core interface *)

Definition sizeof_half : Z := 2.

(** [p + n] for [half *p]. *)
Definition half_ptr_add (p n : Z) : Z := p + n * sizeof_half.

(** Byte addresses of the two [__shared__] operand buffers.  The
    declarations carry [__align__(128)] for [A_shared] and
    [__align__(16)] for [B_shared]. *)
Record SharedLayout := {
  A_shared : Z;
  B_shared : Z
}.

Definition A_shared_align : Z := 128.
Definition B_shared_align : Z := 16.

Definition layout_declared (lay : SharedLayout) : Prop :=
  0 <= A_shared lay /\ A_shared lay mod A_shared_align = 0 /\
  0 <= B_shared lay /\ B_shared lay mod B_shared_align = 0.

(** Modelled from the spec: the descriptor builders of [wgmma.cuh]
    ([make_desc_a], [make_desc_b], [make_desc]), whose bodies are not
    part of the sources.  The spec gives the builder as
    [build(base_ptr, leading_dim, stride_dim, swizzle_mode)], a pure
    function of its inputs; the record keeps those inputs.  The
    one-argument builders fix their two dimensions internally. *)
Inductive DescBuilder :=
| MakeDescA
| MakeDescB
| MakeDesc (leading_dim stride_dim : Z).

Record GmmaDescriptor := {
  desc_builder : DescBuilder;
  desc_swizzle : Z;
  desc_base : Z
}.

Definition make_desc_a (swizzle : Z) (ptr : Z) : GmmaDescriptor :=
  {| desc_builder := MakeDescA; desc_swizzle := swizzle; desc_base := ptr |}.
Definition make_desc_b (swizzle : Z) (ptr : Z) : GmmaDescriptor :=
  {| desc_builder := MakeDescB; desc_swizzle := swizzle; desc_base := ptr |}.
Definition make_desc (leading stride swizzle : Z) (ptr : Z) : GmmaDescriptor :=
  {| desc_builder := MakeDesc leading stride; desc_swizzle := swizzle; desc_base := ptr |}.

(** The alignment the spec asks of a descriptor base: 128 bytes when a
    swizzle mode is selected, 16 bytes when it is none. *)
Definition required_alignment (swizzle : Z) : Z :=
  if swizzle =? 0 then 16 else 128.

Definition desc_aligned (d : GmmaDescriptor) : bool :=
  desc_base d mod required_alignment (desc_swizzle d) =? 0.

(** Modelled from the spec: the tile descriptor built on the host by
    [create_2d_tensor_map] and [create_2d_tensor_map_half] of
    [tma_tensor_map.cuh], which is not part of the sources: global
    data, matrix shape, box shape, element size and swizzle pattern. *)
Record CUtensorMap := {
  tm_data : list Z;
  tm_rows : Z;
  tm_cols : Z;
  tm_box_rows : Z;
  tm_box_cols : Z;
  tm_elem_bytes : Z;
  tm_swizzle : Z
}.

(** [create_2d_tensor_map<T, type, swizzle>(rows, cols, box_rows,
    box_cols, ptr)] *)
Definition create_2d_tensor_map (elem_bytes swizzle : Z)
    (rows cols box_rows box_cols : Z) (data : list Z) : CUtensorMap :=
  {| tm_data := data; tm_rows := rows; tm_cols := cols;
     tm_box_rows := box_rows; tm_box_cols := box_cols;
     tm_elem_bytes := elem_bytes; tm_swizzle := swizzle |}.

(** [create_2d_tensor_map_half<swizzle>(rows, cols, box_rows, box_cols,
    ptr)] *)
Definition create_2d_tensor_map_half (swizzle : Z)
    (rows cols box_rows box_cols : Z) (data : list Z) : CUtensorMap :=
  create_2d_tensor_map sizeof_half swizzle rows cols box_rows box_cols data.

(** [CU_TENSOR_MAP_SWIZZLE_NONE], [CU_TENSOR_MAP_SWIZZLE_64B] *)
Definition CU_TENSOR_MAP_SWIZZLE_NONE : Z := 0.
Definition CU_TENSOR_MAP_SWIZZLE_64B : Z := 2.

(** The bytes one bulk copy of a box delivers. *)
Definition box_bytes (tm : CUtensorMap) : Z :=
  tm_box_rows tm * tm_box_cols tm * tm_elem_bytes tm.

(** Contents of the two operand buffers. *)
Record SharedMem := {
  sh_A : list Z;
  sh_B : list Z
}.

(** One [wgmma.mma_async] instruction with its operands. *)
Record MmaOp := {
  mma_sparse : bool;
  mma_m : Z;
  mma_n : Z;
  mma_k : Z;
  (** the registers bound to the ["+r"] operands *)
  mma_d : list nat;
  mma_desc_a : GmmaDescriptor;
  mma_desc_b : GmmaDescriptor;
  (** sparse only: the metadata register of every thread, by thread id *)
  mma_metadata : list Z;
  mma_thread_sel : Z;
  mma_scale_d : Z;
  mma_scale_a : Z;
  mma_scale_b : Z;
  mma_trans_a : Z;
  mma_trans_b : Z
}.

(** The two hardware units the kernels drive.  Their numerics are those
    of the device; the kernels are modelled for any such unit.
    [tma_box] is the box a bulk tensor copy delivers at a coordinate;
    [tensor_core sh op c tid i] is the value register [i] of thread
    [tid] holds after [op], given the accumulators [c] before it. *)
Record Hardware := {
  tma_box : CUtensorMap -> Z -> Z -> list Z;
  tensor_core : SharedMem -> MmaOp -> list (list Z) -> nat -> nat -> Z
}.

(** ** The arrival barrier and the copy engine

    [cuda::barrier] counts arrivals and bytes: a phase needs
    [bar_expected] arrivals, and the bytes announced with
    [barrier_arrive_tx] have to be delivered by the copy engine before
    the phase completes. *)

Record Barrier := {
  bar_expected : Z;
  bar_arrived : Z;
  bar_tx : Z
}.

Inductive Buffer := BufA | BufB.

(** A bulk tensor copy that has been issued. *)
Record BulkCopy := {
  copy_dst : Buffer;
  copy_data : list Z;
  copy_bytes : Z
}.

Record CopyState := {
  (** [None] before [init] *)
  bar : option Barrier;
  (** copies issued against the current phase *)
  bulk : list BulkCopy;
  smem : SharedMem
}.

Definition deliver (sh : SharedMem) (cp : BulkCopy) : SharedMem :=
  match copy_dst cp with
  | BufA => {| sh_A := copy_data cp; sh_B := sh_B sh |}
  | BufB => {| sh_A := sh_A sh; sh_B := copy_data cp |}
  end.

Definition bulk_bytes (copies : list BulkCopy) : Z :=
  foldr (fun cp n => copy_bytes cp + n) 0 copies.

(** ** Warpgroup state and its monad

    All 128 threads issue the warpgroup instructions together
    ([.sync.aligned]) and meet at every [__syncthreads()]; the model
    executes a kernel up to the result scatter in lock step and keeps
    per-thread registers as lists indexed by thread id.  Code guarded
    by the thread id runs thread after thread.  The scatter is
    interleaved, one store at a time. *)

Inductive Event :=
| EvMakeDesc (d : GmmaDescriptor)
| EvLoadMetadata (offsets : list Z)
| EvZeroAcc (n : nat)
| EvArrive
| EvMma (op : MmaOp)
| EvCommit
| EvWait (n : nat)
| EvFence
| EvStore (tid : Z) (slot : nat) (offset : Z).

Record Warpgroup := {
  copy_state : CopyState;
  (** accumulator registers [c] of every thread *)
  regs_c : list (list Z);
  (** issued and not yet committed *)
  in_flight : list MmaOp;
  (** committed batches not yet waited for, oldest first *)
  committed : list (list MmaOp);
  (** the output buffer, as the words of [C_ptr] *)
  gmem_C : list Z;
  (** how many of its stores each thread has executed *)
  store_pc : list nat;
  events : list Event
}.

(** Code that runs on a block state [S] and may fault. *)
Definition Exec (S A : Type) : Type := S -> option (A * S).

Definition ret {S A} (a : A) : Exec S A := fun s => Some (a, s).
Definition bind {S A B} (m : Exec S A) (k : A -> Exec S B) : Exec S B :=
  fun s => match m s with
           | Some (a, s') => k a s'
           | None => None
           end.
Definition fault {S A} : Exec S A := fun _ => None.
Definition lift {S A} (o : option A) : Exec S A :=
  fun s => match o with Some a => Some (a, s) | None => None end.

Declare Scope exec_scope.
Delimit Scope exec_scope with exec.
Notation "'do' x <~ m 'in' k" := (bind m (fun x => k))
  (at level 10, x name, m at level 100, k at level 200) : exec_scope.
Notation "m >>> k" := (bind m (fun _ => k))
  (at level 100, k at level 200, right associativity) : exec_scope.

Definition with_copy (cs : CopyState) (s : Warpgroup) : Warpgroup :=
  {| copy_state := cs; regs_c := regs_c s; in_flight := in_flight s;
     committed := committed s; gmem_C := gmem_C s;
     store_pc := store_pc s; events := events s |}.

Definition get_copy : Exec Warpgroup CopyState := fun s => Some (copy_state s, s).
Definition set_copy (cs : CopyState) : Exec Warpgroup unit := fun s => Some (tt, with_copy cs s).

Definition emit (e : Event) : Exec Warpgroup unit := fun s =>
  Some (tt, {| copy_state := copy_state s;
               regs_c := regs_c s; in_flight := in_flight s;
               committed := committed s; gmem_C := gmem_C s;
               store_pc := store_pc s; events := events s ++ [e] |}).

Definition set_regs (c : list (list Z)) : Exec Warpgroup unit := fun s =>
  Some (tt, {| copy_state := copy_state s;
               regs_c := c; in_flight := in_flight s;
               committed := committed s; gmem_C := gmem_C s;
               store_pc := store_pc s; events := events s |}).

(** [body] in every thread of the block, thread after thread. *)
Fixpoint for_each {S} (tids : list Z) (body : Z -> Exec S unit) : Exec S unit :=
  match tids with
  | [] => ret tt
  | tid :: rest => (body tid >>> for_each rest body)%exec
  end.

Definition each_thread {S} (body : Z -> Exec S unit) : Exec S unit :=
  for_each all_tids body.

(** The threads move in lock step: the barrier of the block is a no-op. *)
Definition syncthreads {S} : Exec S unit := ret tt.

(** [init(&bar, n)] *)
Definition barrier_init (n : Z) : Exec Warpgroup unit :=
  (do cs <~ get_copy in
   set_copy {| bar := Some {| bar_expected := n; bar_arrived := 0; bar_tx := 0 |};
               bulk := bulk cs; smem := smem cs |})%exec.

(** An arrival on a barrier that has not been initialised is a fault. *)
Definition on_barrier (f : Barrier -> Barrier) : Exec Warpgroup unit :=
  (do cs <~ get_copy in
   match bar cs with
   | Some b => set_copy {| bar := Some (f b); bulk := bulk cs; smem := smem cs |}
   | None => fault
   end)%exec.

(** [bar.arrive()] *)
Definition barrier_arrive : Exec Warpgroup unit :=
  on_barrier (fun b => {| bar_expected := bar_expected b;
                          bar_arrived := bar_arrived b + 1;
                          bar_tx := bar_tx b |}).

(** [cuda::device::barrier_arrive_tx(bar, count, bytes)] *)
Definition barrier_arrive_tx (count bytes : Z) : Exec Warpgroup unit :=
  on_barrier (fun b => {| bar_expected := bar_expected b;
                          bar_arrived := bar_arrived b + count;
                          bar_tx := bar_tx b + bytes |}).

(** [cde::cp_async_bulk_tensor_2d_global_to_shared(dst, &tensor_map, x,
    y, bar)]: the copy is issued and returns at once. *)
Definition cp_async_bulk_tensor_2d_global_to_shared (hw : Hardware) (dst : Buffer)
    (tensor_map : CUtensorMap) (x y : Z) : Exec Warpgroup unit :=
  (do cs <~ get_copy in
   set_copy {| bar := bar cs;
               bulk := bulk cs ++ [ {| copy_dst := dst;
                                       copy_data := tma_box hw tensor_map x y;
                                       copy_bytes := box_bytes tensor_map |} ];
               smem := smem cs |})%exec.

(** [bar.wait(token)] in every thread.  The phase completes when all
    expected arrivals are in and the copy engine has delivered the
    announced bytes; the buffers then hold the boxes, and the next
    phase starts from zero.  When the counts cannot meet, no thread
    ever returns from the wait: a fault. *)
Definition barrier_wait : Exec Warpgroup unit :=
  (do cs <~ get_copy in
   match bar cs with
   | Some b =>
       if (bar_arrived b =? bar_expected b) && (bar_tx b =? bulk_bytes (bulk cs))
       then set_copy {| bar := Some {| bar_expected := bar_expected b;
                                       bar_arrived := 0; bar_tx := 0 |};
                        bulk := [];
                        smem := foldl deliver (smem cs) (bulk cs) |}
       else fault
   | None => fault
   end)%exec.

(** The lines both compute kernels share: thread 0 initialises the
    barrier, issues the copies of the two operand tiles at coordinate
    (0, 0) and arrives announcing [bytes]; the other threads arrive;
    all wait.
    [[
      if (threadIdx.x == 0) { init(&bar, blockDim.x); }
      __syncthreads();
      if (tid == 0) {
        cde::cp_async_bulk_tensor_2d_global_to_shared(A_shared, &tensor_map_a, 0, 0, bar);
        cde::cp_async_bulk_tensor_2d_global_to_shared(B_shared, &tensor_map_b, 0, 0, bar);
        token = cuda::device::barrier_arrive_tx(bar, 1, sizeof(A_shared) + sizeof(B_shared));
      } else {
        token = bar.arrive();
      }
      bar.wait(cuda::std::move(token));
      __syncthreads();
    ]] *)
Definition load_tiles (hw : Hardware) (tensor_map_a tensor_map_b : CUtensorMap)
    (bytes : Z) : Exec Warpgroup unit :=
  (each_thread (fun tid =>
     if tid =? 0 then barrier_init threads_per_block else ret tt) >>>
   syncthreads >>>
   each_thread (fun tid =>
     if tid =? 0 then
       cp_async_bulk_tensor_2d_global_to_shared hw BufA tensor_map_a 0 0 >>>
       cp_async_bulk_tensor_2d_global_to_shared hw BufB tensor_map_b 0 0 >>>
       barrier_arrive_tx 1 bytes
     else barrier_arrive) >>>
   barrier_wait >>>
   syncthreads)%exec.

(** [n] zeroed registers in every thread. *)
Definition zero_regs (n : nat) : list (list Z) :=
  replicate (Z.to_nat threads_per_block) (replicate n 0).

(** [uint32_t c[n] = {};] in every thread. *)
Definition zero_acc (n : nat) : Exec Warpgroup unit :=
  (set_regs (zero_regs n) >>> emit (EvZeroAcc n))%exec.

(** [GmmaDescriptor d = make_desc...(ptr);] *)
Definition build_desc (d : GmmaDescriptor) : Exec Warpgroup GmmaDescriptor :=
  (emit (EvMakeDesc d) >>> ret d)%exec.

(** [metadata = metadata_array[metadata_offset];] in every thread. *)
Definition load_metadata (metadata_array : list Z) (offset : Z -> Z) : Exec Warpgroup (list Z) :=
  (do m <~ lift (mapM (fun tid => zlookup metadata_array (offset tid)) all_tids) in
   emit (EvLoadMetadata (offset <$> all_tids)) >>> ret m)%exec.

Definition warpgroup_arrive : Exec Warpgroup unit := emit EvArrive.

(** The instruction is asynchronous: it joins the open batch. *)
Definition wgmma (op : MmaOp) : Exec Warpgroup unit := fun s =>
  emit (EvMma op)
    {| copy_state := copy_state s;
       regs_c := regs_c s; in_flight := in_flight s ++ [op];
       committed := committed s; gmem_C := gmem_C s;
       store_pc := store_pc s; events := events s |}.

Definition warpgroup_commit_batch : Exec Warpgroup unit := fun s =>
  emit EvCommit
    {| copy_state := copy_state s;
       regs_c := regs_c s; in_flight := [];
       committed := committed s ++ [in_flight s]; gmem_C := gmem_C s;
       store_pc := store_pc s; events := events s |}.

(** The accumulators of every thread after one instruction. *)
Definition apply_mma (hw : Hardware) (sh : SharedMem) (c : list (list Z)) (op : MmaOp)
  : list (list Z) :=
  imap (fun tid row => imap (fun i _ => tensor_core hw sh op c tid i) row) c.

Definition retire_batch (hw : Hardware) (sh : SharedMem) (c : list (list Z))
    (batch : list MmaOp) : list (list Z) :=
  foldl (apply_mma hw sh) c batch.

(** [warpgroup_wait<n>()]: retire the oldest batches until at most [n]
    remain; the instructions read the operand buffers as they are. *)
Definition warpgroup_wait (hw : Hardware) (n : nat) : Exec Warpgroup unit := fun s =>
  let k := (length (committed s) - n)%nat in
  let sh := smem (copy_state s) in
  emit (EvWait n)
    {| copy_state := copy_state s;
       regs_c := foldl (retire_batch hw sh) (regs_c s) (take k (committed s));
       in_flight := in_flight s;
       committed := drop k (committed s); gmem_C := gmem_C s;
       store_pc := store_pc s; events := events s |}.

Definition threadfence : Exec Warpgroup unit := emit EvFence.

(** One thread executes its next store [C_ptr[offset] = c[slot]].
    Reading a register that an unfinished instruction still owns,
    storing outside [C], or stepping a thread that has no store left is
    a fault. *)
Definition store_step (stores : Z -> list (Z * nat)) (tid : Z) : Exec Warpgroup unit := fun s =>
  match in_flight s, committed s with
  | [], [] =>
      pc ← zlookup (store_pc s) tid;
      '(offset, slot) ← stores tid !! pc;
      row ← zlookup (regs_c s) tid;
      v ← row !! slot;
      C' ← zstore (gmem_C s) offset v;
      Some (tt, {| copy_state := copy_state s;
                   regs_c := regs_c s; in_flight := []; committed := [];
                   gmem_C := C';
                   store_pc := <[Z.to_nat tid := S pc]> (store_pc s);
                   events := events s ++ [EvStore tid slot offset] |})
  | _, _ => None
  end.

Fixpoint scatter_phase (stores : Z -> list (Z * nat)) (sched : list Z) : Exec Warpgroup unit :=
  match sched with
  | [] => ret tt
  | tid :: rest => (store_step stores tid >>> scatter_phase stores rest)%exec
  end.

(** The kernel has returned in every thread. *)
Definition all_done (stores : Z -> list (Z * nat)) : Exec Warpgroup unit := fun s =>
  if forallb (fun tid => match zlookup (store_pc s) tid with
                         | Some pc => Nat.eqb pc (length (stores tid))
                         | None => false
                         end) all_tids
  then Some (tt, s) else None.

(** The block at launch: nothing in shared memory, [C] in the output
    buffer. *)
Definition initial (C : list Z) : Warpgroup :=
  {| copy_state := {| bar := None; bulk := []; smem := {| sh_A := []; sh_B := [] |} |};
     regs_c := []; in_flight := []; committed := []; gmem_C := C;
     store_pc := replicate (Z.to_nat threads_per_block) 0%nat; events := [] |}.

(** A schedule of the scatter names, for each store executed, the thread
    that executes it; it is complete when every thread of the block
    occurs once per store it has to do. *)
Definition occurrences (tid : Z) (sched : list Z) : nat :=
  length (filter (fun t => t = tid) sched).

Definition complete_schedule (n : nat) (sched : list Z) : bool :=
  forallb (fun tid => bool_decide (tid ∈ all_tids)) sched &&
  forallb (fun tid => Nat.eqb (occurrences tid sched) n) all_tids.

(** Every thread runs its stores back to back, threads in increasing order. *)
Definition sequential_schedule (n : nat) : list Z :=
  all_tids ≫= (fun tid => replicate n tid).

(** ** The dense kernel: m64n16k16 *)

Module Dense.

Definition M : Z := 64.
Definition N : Z := 16.
Definition K : Z := 16.

(** [__shared__ half A_shared[M * K]], [__shared__ half B_shared[K * N]] *)
Definition sizeof_A_shared : Z := M * K * sizeof_half.
Definition sizeof_B_shared : Z := K * N * sizeof_half.

(** [uint32_t c[4]] *)
Definition acc_regs : nat := 4.

(** [C] holds [M * N] halves and is written through
    [uint32_t *C_ptr]: two halves per word. *)
Definition C_words : Z := M * N / 2.

(** For the thread ids of the block every intermediate value of the two
    sums is below 512: [int] arithmetic does not wrap. *)
Definition offset1 (tid : Z) : Z :=
  warp_id tid * 16 * 8 + group_id tid * 8 + lane_in_group tid.
Definition offset2 (tid : Z) : Z :=
  warp_id tid * 16 * 8 + (group_id tid + 8) * 8 + lane_in_group tid.

(** [C_ptr[offset1] = c[0]; C_ptr[offset2] = c[1];
     C_ptr[offset1 + 4] = c[2]; C_ptr[offset2 + 4] = c[3];] *)
Definition stores (tid : Z) : list (Z * nat) :=
  [ (offset1 tid, 0%nat); (offset2 tid, 1%nat);
    (offset1 tid + 4, 2%nat); (offset2 tid + 4, 3%nat) ].

(** The word of [C_ptr] that receives register [c[slot]]. *)
Definition scatter (tid : Z) (slot : nat) : Z :=
  match slot with
  | 0%nat => offset1 tid
  | 1%nat => offset2 tid
  | 2%nat => offset1 tid + 4
  | _ => offset2 tid + 4
  end.

(** [wgmma.mma_async.sync.aligned.m64n16k16.f16.f16.f16
     {c[0], c[1], c[2], c[3]}, desc_a, desc_b, 1, 1, 1, 0, 1;] *)
Definition mma (desc_a desc_b : GmmaDescriptor) : MmaOp :=
  {| mma_sparse := false; mma_m := 64; mma_n := 16; mma_k := 16;
     mma_d := [0; 1; 2; 3]%nat;
     mma_desc_a := desc_a; mma_desc_b := desc_b;
     mma_metadata := []; mma_thread_sel := 0;
     mma_scale_d := 1; mma_scale_a := 1; mma_scale_b := 1;
     mma_trans_a := 0; mma_trans_b := 1 |}.

Definition kernel (hw : Hardware) (lay : SharedLayout) (sched : list Z)
    (tensor_map tensor_map_b : CUtensorMap) : Exec Warpgroup unit :=
  (syncthreads >>>
   load_tiles hw tensor_map tensor_map_b (sizeof_A_shared + sizeof_B_shared) >>>
   do desc_a <~ build_desc (make_desc_a 3 (A_shared lay)) in
   do desc_b <~ build_desc (make_desc_b 3 (B_shared lay)) in
   zero_acc acc_regs >>>
   warpgroup_arrive >>>
   wgmma (mma desc_a desc_b) >>>
   warpgroup_commit_batch >>>
   warpgroup_wait hw 0 >>>
   threadfence >>>
   warpgroup_arrive >>>
   scatter_phase stores sched >>>
   all_done stores)%exec.

(** [kernel<<<blocks, threads_per_block>>>(tensor_map, tensor_map_b, d_C)] *)
Definition launch (hw : Hardware) (lay : SharedLayout) (sched : list Z)
    (tensor_map tensor_map_b : CUtensorMap) (d_C : list Z) : option Warpgroup :=
  snd <$> kernel hw lay sched tensor_map tensor_map_b (initial d_C).

(** [main] from the tensor maps to the end of the kernel: [h_A] and
    [h_B] are the operands copied to the device, [d_C] is what the
    freshly allocated output buffer holds. *)
Definition main (hw : Hardware) (lay : SharedLayout) (sched : list Z)
    (h_A h_B d_C : list Z) : option Warpgroup :=
  let tensor_map := create_2d_tensor_map_half 1 M K M K h_A in
  let tensor_map_b := create_2d_tensor_map_half 1 K N K N h_B in
  launch hw lay sched tensor_map tensor_map_b d_C.

End Dense.

(** ** The sparse kernel: m64n8k32 with 2:4 metadata *)

Module Sparse.

Definition M : Z := 64.
Definition N : Z := 8.
Definition K : Z := 64.
(** 2:4 format: the compressed operand keeps half of the columns. *)
Definition K_A : Z := 32.

(** [__shared__ half A_shared[M * K_A]], [__shared__ half B_shared[K * N]] *)
Definition sizeof_A_shared : Z := M * K_A * sizeof_half.
Definition sizeof_B_shared : Z := K * N * sizeof_half.

(** [uint32_t c[2]] *)
Definition acc_regs : nat := 2.

Definition C_words : Z := M * N / 2.

(** [int metadata_size = (M / 16) * (K / 16) * 8;] in [main]. *)
Definition metadata_size : Z := CInt.div M 16 * CInt.div K 16 * 8.

(** The offsets of the two loads [metadata_array[metadata_offset]]. *)
Definition metadata_offset1 (tid : Z) : Z :=
  warp_id tid * 8 * 4 + lane_in_work_group tid * 8 + group_id tid.
Definition metadata_offset2 (tid : Z) : Z :=
  warp_id tid * 8 * 4 + 8 * 2 + lane_in_work_group tid * 8 + group_id tid.

Definition offset1 (tid : Z) : Z :=
  warp_id tid * 16 * 4 + group_id tid * 4 + lane_in_group tid.
Definition offset2 (tid : Z) : Z :=
  warp_id tid * 16 * 4 + (group_id tid + 8) * 4 + lane_in_group tid.

(** [C_ptr[offset1] = c[0]; C_ptr[offset2] = c[1];] *)
Definition stores (tid : Z) : list (Z * nat) :=
  [ (offset1 tid, 0%nat); (offset2 tid, 1%nat) ].

(** The word of [C_ptr] that receives register [c[slot]]. *)
Definition scatter (tid : Z) (slot : nat) : Z :=
  match slot with
  | 0%nat => offset1 tid
  | _ => offset2 tid
  end.

(** [wgmma.mma_async.sp.sync.aligned.m64n8k32.f16.f16.f16
     {c[0], c[1]}, desc_a, desc_b, metadata, 0, 1, 1, 1, 0, 1;] *)
Definition mma (desc_a desc_b : GmmaDescriptor) (metadata : list Z) : MmaOp :=
  {| mma_sparse := true; mma_m := 64; mma_n := 8; mma_k := 32;
     mma_d := [0; 1]%nat;
     mma_desc_a := desc_a; mma_desc_b := desc_b;
     mma_metadata := metadata; mma_thread_sel := 0;
     mma_scale_d := 1; mma_scale_a := 1; mma_scale_b := 1;
     mma_trans_a := 0; mma_trans_b := 1 |}.

Definition kernel (hw : Hardware) (lay : SharedLayout) (sched : list Z)
    (tensor_map_a tensor_map_b : CUtensorMap) (metadata_array : list Z) : Exec Warpgroup unit :=
  (load_tiles hw tensor_map_a tensor_map_b (sizeof_A_shared + sizeof_B_shared) >>>
   do metadata <~ load_metadata metadata_array metadata_offset1 in
   syncthreads >>>
   do desc_a <~ build_desc (make_desc 8 32 2 (A_shared lay)) in
   do desc_b <~ build_desc (make_desc 8 16 0 (B_shared lay)) in
   zero_acc acc_regs >>>
   warpgroup_arrive >>>
   wgmma (mma desc_a desc_b metadata) >>>
   do desc_a <~ build_desc (make_desc 8 32 2 (half_ptr_add (A_shared lay) (CInt.div K_A 2))) in
   do desc_b <~ build_desc (make_desc 8 8 0 (half_ptr_add (B_shared lay) (32 * N))) in
   warpgroup_arrive >>>
   do metadata <~ load_metadata metadata_array metadata_offset2 in
   wgmma (mma desc_a desc_b metadata) >>>
   warpgroup_commit_batch >>>
   warpgroup_wait hw 0 >>>
   threadfence >>>
   warpgroup_arrive >>>
   scatter_phase stores sched >>>
   all_done stores)%exec.

(** [kernel<<<blocks, threads_per_block>>>(tensor_map_a, tensor_map_b,
    d_C, d_metadata)] *)
Definition launch (hw : Hardware) (lay : SharedLayout) (sched : list Z)
    (tensor_map_a tensor_map_b : CUtensorMap) (d_C : list Z) (metadata_array : list Z)
  : option Warpgroup :=
  snd <$> kernel hw lay sched tensor_map_a tensor_map_b metadata_array (initial d_C).

(** [main] from the tensor maps to the end of the kernel: [h_A2] is the
    compressed operand, [h_B] the dense one, [metadata_array] the
    [metadata_size] words [inspect_metadata] has filled, [d_C] what the
    freshly allocated output buffer holds. *)
Definition main (hw : Hardware) (lay : SharedLayout) (sched : list Z)
    (h_A2 h_B metadata_array d_C : list Z) : option Warpgroup :=
  let tensor_map_a :=
    create_2d_tensor_map sizeof_half CU_TENSOR_MAP_SWIZZLE_64B M K_A M K_A h_A2 in
  let tensor_map_b :=
    create_2d_tensor_map sizeof_half CU_TENSOR_MAP_SWIZZLE_NONE K N K N h_B in
  launch hw lay sched tensor_map_a tensor_map_b d_C metadata_array.

End Sparse.

(** ** The copy-only kernel: load a tile, add one, store it back *)

Module AddOne.

Definition array_size : Z := 128.
Definition tile_size : Z := 16.

(** [add_one_kernel<<<1, 128>>>(tensor_map, offset)] *)
Definition blockDim : Z := 128.

Definition sizeof_int : Z := 4.

(** [__shared__ alignas(16) int tile_shared[tile_size]] *)
Definition sizeof_tile_shared : Z := tile_size * sizeof_int.

(** Modelled from the spec: the one-dimensional tile descriptor that
    [create_1d_tensor_map(array_size, tile_size, d_data)] of
    [tma_tensor_map.cuh] builds; that header is not part of the
    sources.  It names the length of the array and of one tile; the
    array [d_data] it points to is the one of the block state. *)
Record CUtensorMap1d := {
  tm_len : Z;
  tm_box : Z
}.

Definition create_1d_tensor_map (len box : Z) : CUtensorMap1d :=
  {| tm_len := len; tm_box := box |}.

(** The block: its barrier, the copy to shared memory in flight (the
    box and its size in bytes), the tile and the array on the device. *)
Record Block := {
  blk_bar : option Barrier;
  blk_bulk : list (list Z * Z);
  tile_shared : list Z;
  d_data : list Z
}.

Definition with_bar (b : option Barrier) (s : Block) : Block :=
  {| blk_bar := b; blk_bulk := blk_bulk s;
     tile_shared := tile_shared s; d_data := d_data s |}.

Definition with_tile (t : list Z) (s : Block) : Block :=
  {| blk_bar := blk_bar s; blk_bulk := blk_bulk s;
     tile_shared := t; d_data := d_data s |}.

(** The box that starts at [coordinate]; an element outside the array
    reads as zero. *)
Definition load_tile (tm : CUtensorMap1d) (gmem : list Z) (coordinate : Z) : list Z :=
  (fun j : nat =>
     let i := coordinate + Z.of_nat j in
     if i <? tm_len tm then default 0 (zlookup gmem i) else 0)
    <$> seq 0 (Z.to_nat (tm_box tm)).

(** The tile goes back to where the box starts; an element outside the
    array is dropped. *)
Fixpoint store_tile (tm : CUtensorMap1d) (gmem : list Z) (coordinate : Z)
    (tile : list Z) : list Z :=
  match tile with
  | [] => gmem
  | v :: rest =>
      let gmem' := if coordinate <? tm_len tm
                   then default gmem (zstore gmem coordinate v)
                   else gmem in
      store_tile tm gmem' (coordinate + 1) rest
  end.

(** [init(&bar, n)] *)
Definition init (n : Z) : Exec Block unit := fun s =>
  Some (tt, with_bar (Some {| bar_expected := n; bar_arrived := 0; bar_tx := 0 |}) s).

Definition on_bar (f : Barrier -> Barrier) : Exec Block unit := fun s =>
  match blk_bar s with
  | Some b => Some (tt, with_bar (Some (f b)) s)
  | None => None
  end.

(** [bar.arrive()] *)
Definition arrive : Exec Block unit :=
  on_bar (fun b => {| bar_expected := bar_expected b;
                      bar_arrived := bar_arrived b + 1;
                      bar_tx := bar_tx b |}).

(** [cuda::device::barrier_arrive_tx(bar, count, bytes)] *)
Definition barrier_arrive_tx (count bytes : Z) : Exec Block unit :=
  on_bar (fun b => {| bar_expected := bar_expected b;
                      bar_arrived := bar_arrived b + count;
                      bar_tx := bar_tx b + bytes |}).

(** [cde::cp_async_bulk_tensor_1d_global_to_shared(tile_shared,
    &tensor_map, coordinate, bar)] *)
Definition cp_async_bulk_tensor_1d_global_to_shared (tm : CUtensorMap1d)
    (coordinate : Z) : Exec Block unit := fun s =>
  Some (tt, {| blk_bar := blk_bar s;
               blk_bulk := blk_bulk s ++
                 [(load_tile tm (d_data s) coordinate, tm_box tm * sizeof_int)];
               tile_shared := tile_shared s; d_data := d_data s |}).

(** [bar.wait(token)] in every thread: the phase completes when all
    arrivals are in and the announced bytes have been delivered; the
    tile then holds the box. *)
Definition wait : Exec Block unit := fun s =>
  match blk_bar s with
  | Some b =>
      if (bar_arrived b =? bar_expected b) &&
         (bar_tx b =? foldr (fun cp n => cp.2 + n) 0 (blk_bulk s))
      then Some (tt, {| blk_bar := Some {| bar_expected := bar_expected b;
                                           bar_arrived := 0; bar_tx := 0 |};
                        blk_bulk := [];
                        tile_shared := foldl (fun _ cp => cp.1) (tile_shared s) (blk_bulk s);
                        d_data := d_data s |})
      else None
  | None => None
  end.

(** [tile_shared[i] += 1;] *)
Definition tile_add_one (i : Z) : Exec Block unit := fun s =>
  v ← zlookup (tile_shared s) i;
  tile' ← zstore (tile_shared s) i (CInt.add v 1);
  Some (tt, with_tile tile' s).

(** [for (int i = threadIdx.x; i < array_size; i += blockDim.x)
      if (i < tile_size) tile_shared[i] += 1;] *)
Fixpoint thread_loop (fuel : nat) (i : Z) : Exec Block unit :=
  if i <? array_size then
    match fuel with
    | O => fault
    | S fuel' =>
        ((if i <? tile_size then tile_add_one i else ret tt) >>>
         thread_loop fuel' (CInt.add i blockDim))%exec
    end
  else ret tt.

(** The loop counter grows by [blockDim] and stops at [array_size]. *)
Definition loop_fuel : nat := Z.to_nat array_size.

Definition fence_proxy_async_shared_cta : Exec Block unit := ret tt.
Definition threadfence : Exec Block unit := ret tt.
Definition cp_async_bulk_commit_group : Exec Block unit := ret tt.
Definition cp_async_bulk_wait_group_read (n : nat) : Exec Block unit := ret tt.

(** [cde::cp_async_bulk_tensor_1d_shared_to_global(&tensor_map,
    coordinate, tile_shared)]: the engine reads the tile between this
    call and the return of [cp_async_bulk_wait_group_read]; no thread
    writes the tile in between. *)
Definition cp_async_bulk_tensor_1d_shared_to_global (tm : CUtensorMap1d)
    (coordinate : Z) : Exec Block unit := fun s =>
  Some (tt, {| blk_bar := blk_bar s; blk_bulk := blk_bulk s;
               tile_shared := tile_shared s;
               d_data := store_tile tm (d_data s) coordinate (tile_shared s) |}).

(** Steps 1 to 3 of the kernel: barrier, copy to shared memory, wait. *)
Definition load_phase (tensor_map : CUtensorMap1d) (coordinate : Z) : Exec Block unit :=
  (each_thread (fun tid =>
     if tid =? 0 then init blockDim >>> fence_proxy_async_shared_cta else ret tt) >>>
   syncthreads >>>
   each_thread (fun tid =>
     if tid =? 0 then
       cp_async_bulk_tensor_1d_global_to_shared tensor_map coordinate >>>
       barrier_arrive_tx 1 sizeof_tile_shared
     else arrive) >>>
   wait)%exec.

(** Steps 5 to 7: fence, copy back to global memory by thread 0. *)
Definition store_phase (tensor_map : CUtensorMap1d) (coordinate : Z) : Exec Block unit :=
  (fence_proxy_async_shared_cta >>>
   syncthreads >>>
   each_thread (fun tid =>
     if tid =? 0 then
       cp_async_bulk_tensor_1d_shared_to_global tensor_map coordinate >>>
       cp_async_bulk_commit_group >>>
       cp_async_bulk_wait_group_read 0
     else ret tt) >>>
   threadfence >>>
   syncthreads)%exec.

(** The kernel; in step 4 the threads reach their loop in the order
    [sched] gives.  A thread touches no element but [tile_shared[i]]
    with [i] congruent to its id modulo [blockDim]. *)
Definition add_one_kernel (sched : list Z) (tensor_map : CUtensorMap1d)
    (coordinate : Z) : Exec Block unit :=
  (load_phase tensor_map coordinate >>>
   for_each sched (fun tid => thread_loop loop_fuel tid) >>>
   store_phase tensor_map coordinate)%exec.

(** [h_data[i] = i] *)
Definition h_data : list Z := Z.of_nat <$> seq 0 (Z.to_nat array_size).

(** [size_t offset = tile_size * 1;] *)
Definition offset : Z := tile_size * 1.

(** The block at launch, [data] on the device. *)
Definition initial (data : list Z) : Block :=
  {| blk_bar := None; blk_bulk := []; tile_shared := replicate (Z.to_nat tile_size) 0;
     d_data := data |}.

(** [main]: the array that is copied back to [h_data]. *)
Definition main (sched : list Z) : option (list Z) :=
  s ← snd <$> add_one_kernel sched (create_1d_tensor_map array_size tile_size) offset
                (initial h_data);
  Some (d_data s).

End AddOne.

(** ** The two-dimensional copy kernel: load a sub-tile, add one, store it back *)

Module Tma2d.

(** Rows and columns of the matrix. *)
Definition M : Z := 64.
Definition K : Z := 32.
Definition gmem_len : Z := M * K.

(** Rows and columns of the sub-tile. *)
Definition m : Z := 16.
Definition k : Z := 8.

Definition buf_len : Z := k * m.

(** [test<<<1, 128>>>(tensor_map, coordinate_k, coordinate_m)] *)
Definition blockDim : Z := 128.

Definition sizeof_int : Z := 4.

(** [__shared__ alignas(128) int smem_buffer[buf_len]] *)
Definition sizeof_smem_buffer : Z := buf_len * sizeof_int.

(** Modelled from the spec: the tile descriptor that
    [create_2d_tensor_map(M, K, m, k, tensor_ptr)] of
    [tma_tensor_map.cuh] builds; that header is not part of the
    sources.  It names the shape of the row-major matrix and of one
    box; the matrix [tensor_ptr] points to is the one of the block
    state. *)
Record TensorMap2d := {
  map_rows : Z;
  map_cols : Z;
  box_rows : Z;
  box_cols : Z
}.

Definition create_2d_tensor_map (rows cols brows bcols : Z) : TensorMap2d :=
  {| map_rows := rows; map_cols := cols; box_rows := brows; box_cols := bcols |}.

(** The block: its barrier, the copy to shared memory in flight (the
    box and its size in bytes), the buffer and the matrix on the
    device. *)
Record Block := {
  blk_bar : option Barrier;
  blk_bulk : list (list Z * Z);
  smem_buffer : list Z;
  tensor : list Z
}.

Definition with_bar (b : option Barrier) (s : Block) : Block :=
  {| blk_bar := b; blk_bulk := blk_bulk s;
     smem_buffer := smem_buffer s; tensor := tensor s |}.

Definition with_smem (buf : list Z) (s : Block) : Block :=
  {| blk_bar := blk_bar s; blk_bulk := blk_bulk s;
     smem_buffer := buf; tensor := tensor s |}.

(** Where element [j] of the box at ([x], [y]) lives in the matrix: [x]
    counts columns, the contiguous dimension, and [y] rows.  [None]
    for an element of the box that lies outside the matrix. *)
Definition box_index (tm : TensorMap2d) (x y : Z) (j : nat) : option Z :=
  let r := y + Z.of_nat j / box_cols tm in
  let c := x + Z.of_nat j mod box_cols tm in
  if (0 <=? r) && (r <? map_rows tm) && (0 <=? c) && (c <? map_cols tm)
  then Some (r * map_cols tm + c)
  else None.

(** The box at ([x], [y]), row after row; an element outside the matrix
    reads as zero. *)
Definition load_box (tm : TensorMap2d) (gmem : list Z) (x y : Z) : list Z :=
  (fun j : nat => default 0 (box_index tm x y j ≫= zlookup gmem))
    <$> seq 0 (Z.to_nat (box_rows tm * box_cols tm)).

(** The buffer, from its element [j] on, goes back to where the box
    lies; an element outside the matrix is dropped. *)
Fixpoint store_box (tm : TensorMap2d) (gmem : list Z) (x y : Z) (j : nat)
    (buf : list Z) : list Z :=
  match buf with
  | [] => gmem
  | v :: rest =>
      let gmem' := match box_index tm x y j with
                   | Some i => default gmem (zstore gmem i v)
                   | None => gmem
                   end in
      store_box tm gmem' x y (S j) rest
  end.

(** [init(&bar, n)] *)
Definition init (n : Z) : Exec Block unit := fun s =>
  Some (tt, with_bar (Some {| bar_expected := n; bar_arrived := 0; bar_tx := 0 |}) s).

Definition on_bar (f : Barrier -> Barrier) : Exec Block unit := fun s =>
  match blk_bar s with
  | Some b => Some (tt, with_bar (Some (f b)) s)
  | None => None
  end.

(** [bar.arrive()] *)
Definition arrive : Exec Block unit :=
  on_bar (fun b => {| bar_expected := bar_expected b;
                      bar_arrived := bar_arrived b + 1;
                      bar_tx := bar_tx b |}).

(** [cuda::device::barrier_arrive_tx(bar, count, bytes)] *)
Definition barrier_arrive_tx (count bytes : Z) : Exec Block unit :=
  on_bar (fun b => {| bar_expected := bar_expected b;
                      bar_arrived := bar_arrived b + count;
                      bar_tx := bar_tx b + bytes |}).

(** Modelled from the spec: [copy_async_2d_prefetch(&tensor_map, x, y)]
    of [tma.cuh], which is not part of the sources.  A prefetch moves
    no data into the buffer; the kernel calls it unnecessary. *)
Definition copy_async_2d_prefetch (tm : TensorMap2d) (x y : Z) : Exec Block unit :=
  ret tt.

(** [cde::cp_async_bulk_tensor_2d_global_to_shared(smem_buffer,
    &tensor_map, x, y, bar)] *)
Definition cp_async_bulk_tensor_2d_global_to_shared (tm : TensorMap2d)
    (x y : Z) : Exec Block unit := fun s =>
  Some (tt, {| blk_bar := blk_bar s;
               blk_bulk := blk_bulk s ++
                 [(load_box tm (tensor s) x y, box_rows tm * box_cols tm * sizeof_int)];
               smem_buffer := smem_buffer s; tensor := tensor s |}).

(** [bar.wait(token)] in every thread: the phase completes when all
    arrivals are in and the announced bytes have been delivered; the
    buffer then holds the box. *)
Definition wait : Exec Block unit := fun s =>
  match blk_bar s with
  | Some b =>
      if (bar_arrived b =? bar_expected b) &&
         (bar_tx b =? foldr (fun cp n => cp.2 + n) 0 (blk_bulk s))
      then Some (tt, {| blk_bar := Some {| bar_expected := bar_expected b;
                                           bar_arrived := 0; bar_tx := 0 |};
                        blk_bulk := [];
                        smem_buffer := foldl (fun _ cp => cp.1) (smem_buffer s) (blk_bulk s);
                        tensor := tensor s |})
      else None
  | None => None
  end.

(** [smem_buffer[i] += 1;] *)
Definition smem_add_one (i : Z) : Exec Block unit := fun s =>
  v ← zlookup (smem_buffer s) i;
  buf' ← zstore (smem_buffer s) i (CInt.add v 1);
  Some (tt, with_smem buf' s).

(** [for (int i = threadIdx.x; i < buf_len; i += blockDim.x)
      smem_buffer[i] += 1;] *)
Fixpoint thread_loop (fuel : nat) (i : Z) : Exec Block unit :=
  if i <? buf_len then
    match fuel with
    | O => fault
    | S fuel' =>
        (smem_add_one i >>> thread_loop fuel' (CInt.add i blockDim))%exec
    end
  else ret tt.

(** The loop counter grows by [blockDim] and stops at [buf_len]. *)
Definition loop_fuel : nat := Z.to_nat buf_len.

Definition fence_proxy_async_shared_cta : Exec Block unit := ret tt.
Definition threadfence : Exec Block unit := ret tt.
Definition cp_async_bulk_commit_group : Exec Block unit := ret tt.
Definition cp_async_bulk_wait_group_read (n : nat) : Exec Block unit := ret tt.

(** [cde::cp_async_bulk_tensor_2d_shared_to_global(&tensor_map, x, y,
    smem_buffer)]: the engine reads the buffer between this call and
    the return of [cp_async_bulk_wait_group_read]; no thread writes the
    buffer in between. *)
Definition cp_async_bulk_tensor_2d_shared_to_global (tm : TensorMap2d)
    (x y : Z) : Exec Block unit := fun s =>
  Some (tt, {| blk_bar := blk_bar s; blk_bulk := blk_bulk s;
               smem_buffer := smem_buffer s;
               tensor := store_box tm (tensor s) x y 0 (smem_buffer s) |}).

(** The kernel up to the update: barrier, copy to shared memory, wait. *)
Definition load_phase (tensor_map : TensorMap2d) (x y : Z) : Exec Block unit :=
  (each_thread (fun tid => if tid =? 0 then init blockDim else ret tt) >>>
   syncthreads >>>
   each_thread (fun tid =>
     if tid =? 0 then
       copy_async_2d_prefetch tensor_map x y >>>
       cp_async_bulk_tensor_2d_global_to_shared tensor_map x y >>>
       barrier_arrive_tx 1 sizeof_smem_buffer
     else arrive) >>>
   wait >>>
   syncthreads)%exec.

(** The kernel after the update: fence, copy back to global memory by
    thread 0. *)
Definition store_phase (tensor_map : TensorMap2d) (x y : Z) : Exec Block unit :=
  (fence_proxy_async_shared_cta >>>
   syncthreads >>>
   each_thread (fun tid =>
     if tid =? 0 then
       cp_async_bulk_tensor_2d_shared_to_global tensor_map x y >>>
       cp_async_bulk_commit_group >>>
       cp_async_bulk_wait_group_read 0
     else ret tt) >>>
   threadfence >>>
   syncthreads)%exec.

(** The kernel; the threads reach their update loop in the order
    [sched] gives. *)
Definition test (sched : list Z) (tensor_map : TensorMap2d) (x y : Z)
  : Exec Block unit :=
  (load_phase tensor_map x y >>>
   for_each sched (fun tid => thread_loop loop_fuel tid) >>>
   store_phase tensor_map x y)%exec.

(** The block at launch, [data] on the device. *)
Definition initial (data : list Z) : Block :=
  {| blk_bar := None; blk_bulk := [];
     smem_buffer := replicate (Z.to_nat buf_len) 0; tensor := data |}.

(** [int coordinate_m = 48; int coordinate_k = 24;] *)
Definition coordinate_m : Z := 48.
Definition coordinate_k : Z := 24.

(** [main] from the tensor map on: [host_tensor] is what
    [fill_tilewise] of [matrix_utilities.cuh] has put into the matrix;
    the result is the matrix copied back to the host. *)
Definition main (sched : list Z) (host_tensor : list Z) : option (list Z) :=
  s ← snd <$> test sched (create_2d_tensor_map M K m k) coordinate_k coordinate_m
                (initial host_tensor);
  Some (tensor s).

End Tma2d.

(** ** Properties stated over the kernels *)

(** [f] maps the pairs of a thread of the block and one of its [slots]
    registers one-to-one onto the [words] words of the output. *)
Definition scatter_bijection (slots : nat) (words : Z) (f : Z -> nat -> Z) : Prop :=
  (forall tid slot, valid_tid tid -> (slot < slots)%nat -> 0 <= f tid slot < words) /\
  (forall tid slot tid' slot',
      valid_tid tid -> valid_tid tid' -> (slot < slots)%nat -> (slot' < slots)%nat ->
      f tid slot = f tid' slot' -> tid = tid' /\ slot = slot') /\
  (forall o, 0 <= o < words ->
      exists tid slot, valid_tid tid /\ (slot < slots)%nat /\ f tid slot = o).

(** The descriptors a run has built, in program order. *)
Definition built_descs (evs : list Event) : list GmmaDescriptor :=
  omap (fun e => match e with EvMakeDesc d => Some d | _ => None end) evs.

(** The tensor-core instructions a run has issued, in program order. *)
Definition issued_mmas (evs : list Event) : list MmaOp :=
  omap (fun e => match e with EvMma op => Some op | _ => None end) evs.

(** The offsets of the metadata loads of a run, one list per load. *)
Definition metadata_loads (evs : list Event) : list (list Z) :=
  omap (fun e => match e with EvLoadMetadata o => Some o | _ => None end) evs.

Definition is_store_of (tid : Z) (slot : nat) (e : Event) : bool :=
  match e with
  | EvStore t s _ => (t =? tid) && Nat.eqb s slot
  | _ => false
  end.

(** How often a run has read register [c[slot]] of thread [tid]
    outside a tensor-core instruction. *)
Definition reads_of (tid : Z) (slot : nat) (evs : list Event) : nat :=
  length (List.filter (is_store_of tid slot) evs).

Definition is_commit (e : Event) : bool :=
  match e with EvCommit => true | _ => false end.

(** A full accumulator file: one row per thread, [n] registers each. *)
Definition acc_shape (n : nat) (c : list (list Z)) : Prop :=
  length c = Z.to_nat threads_per_block /\ Forall (fun row => length row = n) c.

(** Register [c[k]] of thread [tid] in the register file [c]. *)
Definition reg (c : list (list Z)) (tid : Z) (k : nat) : Z :=
  default 0 (zlookup c tid ≫= (.!! k)).

Definition is_store (e : Event) : Prop := exists t k o, e = EvStore t k o.

(** The invariant of the scatter: [slots] stores per thread, [words]
    output words, [f] the offset of each store, [c] the final
    accumulators, [C0] the output buffer and [ev0] the log when the
    scatter starts, [rest] the part of the schedule still to run.  A
    word holds its register once its store has run and what [C0] held
    before; a register has been read once its store has run. *)
Definition scatter_inv (slots : nat) (words : Z) (f : Z -> nat -> Z)
    (c : list (list Z)) (C0 : list Z) (ev0 : list Event) (rest : list Z)
    (s : Warpgroup) : Prop :=
  regs_c s = c /\ in_flight s = [] /\ committed s = [] /\
  Z.of_nat (length (gmem_C s)) = words /\
  length (store_pc s) = Z.to_nat threads_per_block /\
  Forall valid_tid rest /\
  (exists sev, events s = ev0 ++ sev /\ Forall is_store sev) /\
  forall tid, valid_tid tid ->
    exists pc, zlookup (store_pc s) tid = Some pc /\
               (pc + occurrences tid rest = slots)%nat /\
               forall k, (k < slots)%nat ->
                 zlookup (gmem_C s) (f tid k) =
                   (if decide (k < pc)%nat then Some (reg c tid k)
                    else zlookup C0 (f tid k)) /\
                 reads_of tid k (events s) = (if decide (k < pc)%nat then 1 else 0)%nat.

(** The operand buffers once both boxes have arrived. *)
Definition loaded_tiles (hw : Hardware) (tensor_map_a tensor_map_b : CUtensorMap)
  : SharedMem :=
  {| sh_A := tma_box hw tensor_map_a 0 0; sh_B := tma_box hw tensor_map_b 0 0 |}.

(** Barrier, copy engine and buffers after the phase that loads the tiles. *)
Definition copy_after_load (hw : Hardware) (tensor_map_a tensor_map_b : CUtensorMap)
  : CopyState :=
  {| bar := Some {| bar_expected := threads_per_block; bar_arrived := 0; bar_tx := 0 |};
     bulk := [];
     smem := loaded_tiles hw tensor_map_a tensor_map_b |}.

(** The tensor maps [main] builds. *)
Definition dense_map_a (h_A : list Z) : CUtensorMap :=
  create_2d_tensor_map_half 1 Dense.M Dense.K Dense.M Dense.K h_A.
Definition dense_map_b (h_B : list Z) : CUtensorMap :=
  create_2d_tensor_map_half 1 Dense.K Dense.N Dense.K Dense.N h_B.
Definition sparse_map_a (h_A2 : list Z) : CUtensorMap :=
  create_2d_tensor_map sizeof_half CU_TENSOR_MAP_SWIZZLE_64B
    Sparse.M Sparse.K_A Sparse.M Sparse.K_A h_A2.
Definition sparse_map_b (h_B : list Z) : CUtensorMap :=
  create_2d_tensor_map sizeof_half CU_TENSOR_MAP_SWIZZLE_NONE
    Sparse.K Sparse.N Sparse.K Sparse.N h_B.

(** The operand buffers of the two kernels during the computation. *)
Definition dense_smem (hw : Hardware) (h_A h_B : list Z) : SharedMem :=
  loaded_tiles hw (dense_map_a h_A) (dense_map_b h_B).
Definition sparse_smem (hw : Hardware) (h_A2 h_B : list Z) : SharedMem :=
  loaded_tiles hw (sparse_map_a h_A2) (sparse_map_b h_B).

(** The metadata register of every thread after a load. *)
Definition metadata_regs (metadata_array : list Z) (offset : Z -> Z) : list Z :=
  (fun tid => default 0 (zlookup metadata_array (offset tid))) <$> all_tids.

(** The instruction, the log and the accumulators of the dense kernel
    when the threads reach the scatter. *)
Definition dense_op (lay : SharedLayout) : MmaOp :=
  Dense.mma (make_desc_a 3 (A_shared lay)) (make_desc_b 3 (B_shared lay)).

Definition dense_events (lay : SharedLayout) : list Event :=
  [ EvMakeDesc (make_desc_a 3 (A_shared lay));
    EvMakeDesc (make_desc_b 3 (B_shared lay));
    EvZeroAcc Dense.acc_regs; EvArrive; EvMma (dense_op lay);
    EvCommit; EvWait 0; EvFence; EvArrive ].

Definition dense_acc (hw : Hardware) (lay : SharedLayout) (h_A h_B : list Z)
  : list (list Z) :=
  apply_mma hw (dense_smem hw h_A h_B) (zero_regs Dense.acc_regs) (dense_op lay).

(** The same for the sparse kernel. *)
Definition sparse_op1 (lay : SharedLayout) (metadata_array : list Z) : MmaOp :=
  Sparse.mma (make_desc 8 32 2 (A_shared lay)) (make_desc 8 16 0 (B_shared lay))
    (metadata_regs metadata_array Sparse.metadata_offset1).

Definition sparse_op2 (lay : SharedLayout) (metadata_array : list Z) : MmaOp :=
  Sparse.mma (make_desc 8 32 2 (half_ptr_add (A_shared lay) (CInt.div Sparse.K_A 2)))
    (make_desc 8 8 0 (half_ptr_add (B_shared lay) (32 * Sparse.N)))
    (metadata_regs metadata_array Sparse.metadata_offset2).

Definition sparse_events (lay : SharedLayout) (metadata_array : list Z) : list Event :=
  [ EvLoadMetadata (Sparse.metadata_offset1 <$> all_tids);
    EvMakeDesc (make_desc 8 32 2 (A_shared lay));
    EvMakeDesc (make_desc 8 16 0 (B_shared lay));
    EvZeroAcc Sparse.acc_regs; EvArrive; EvMma (sparse_op1 lay metadata_array);
    EvMakeDesc (make_desc 8 32 2 (half_ptr_add (A_shared lay) (CInt.div Sparse.K_A 2)));
    EvMakeDesc (make_desc 8 8 0 (half_ptr_add (B_shared lay) (32 * Sparse.N)));
    EvArrive;
    EvLoadMetadata (Sparse.metadata_offset2 <$> all_tids);
    EvMma (sparse_op2 lay metadata_array);
    EvCommit; EvWait 0; EvFence; EvArrive ].

Definition sparse_acc (hw : Hardware) (lay : SharedLayout)
    (h_A2 h_B metadata_array : list Z) : list (list Z) :=
  let sh := sparse_smem hw h_A2 h_B in
  apply_mma hw sh
    (apply_mma hw sh (zero_regs Sparse.acc_regs) (sparse_op1 lay metadata_array))
    (sparse_op2 lay metadata_array).

(** What a finished run shows of its accumulator: every thread holds
    [n] registers; they are zeroed before the first tensor-core
    instruction; every instruction names all [n] registers as its
    output and has scale-D equal to 1, and the registers hold what
    the instructions, applied in order to the zeroed file, leave; no
    event before the stores reads a register, the stores are the last
    events of the run and read every register of every thread exactly
    once. *)
Definition accumulator_protocol (hw : Hardware) (n : nat) (s : Warpgroup) : Prop :=
  acc_shape n (regs_c s) /\
  (exists pre post sev,
      events s = (pre ++ EvZeroAcc n :: post) ++ sev /\
      issued_mmas pre = [] /\
      (forall tid k, reads_of tid k (pre ++ EvZeroAcc n :: post) = 0%nat) /\
      Forall is_store sev) /\
  Forall (fun op => mma_scale_d op = 1 /\ mma_d op = seq 0 n) (issued_mmas (events s)) /\
  regs_c s =
    foldl (apply_mma hw (smem (copy_state s))) (zero_regs n) (issued_mmas (events s)) /\
  (forall tid k, valid_tid tid -> (k < n)%nat -> reads_of tid k (events s) = 1%nat).

(** The log has exactly one commit, and the instructions issued before
    it are [ops]; none is issued after it. *)
Definition single_commit_after (ops : list MmaOp) (evs : list Event) : Prop :=
  exists pre post,
    evs = pre ++ EvCommit :: post /\
    issued_mmas pre = ops /\ issued_mmas post = [] /\
    List.filter is_commit pre = [] /\ List.filter is_commit post = [].

(** What one thread of the block does to the tile. *)
Definition add_one_step (tid : Z) (tile : list Z) : list Z :=
  if tid <? AddOne.tile_size
  then alter (fun v => CInt.add v 1) (Z.to_nat tid) tile
  else tile.

(** The array [main] reads back. *)
Definition add_one_expected : list Z :=
  (fun i => if (16 <=? i) && (i <? 32) then i + 1 else i) <$> AddOne.h_data.

(** A small integer tensor core and copy engine, a layout and inputs
    on which the statements above can be run. *)
Definition toy_hardware : Hardware :=
  {| tma_box := fun tm _ _ => tm_data tm;
     tensor_core := fun sh op c tid i =>
       mma_scale_d op * default 0 (c !! tid ≫= (.!! i))
       + default 0 (sh_A sh !! tid) * default 0 (sh_B sh !! i)
       + default 0 (mma_metadata op !! tid) |}.

Definition toy_layout : SharedLayout := {| A_shared := 0; B_shared := 4096 |}.

Definition toy_matrix (n : nat) : list Z := Z.of_nat <$> seq 1 n.

Definition toy_metadata : list Z := Z.of_nat <$> seq 0 (Z.to_nat Sparse.metadata_size).

(** Evaluate the closed natural numbers [Z.to_nat e] of the goal. *)
Ltac eval_to_nat :=
  repeat match goal with
         | |- context [Z.to_nat ?e] =>
             let v := eval vm_compute in (Z.to_nat e) in
             change (Z.to_nat e) with v
         end.

(** Reduce the projections of an explicit warpgroup state. *)
Ltac state_simpl :=
  cbn [copy_state regs_c in_flight committed gmem_C store_pc events].

(** The thread that shares its metadata words: two lanes apart in the
    same lane group. *)
Definition metadata_partner (tid : Z) : Z :=
  if lane_in_group tid <? 2 then tid + 2 else tid - 2.

(** The fence and commit protocol of the warpgroup instructions, as a
    checker of a log: whether a [warpgroup_arrive] has been issued
    since the last commit, how many instructions are issued and not
    committed, how many batches are committed and not waited for. *)
Record Protocol := {
  armed : bool;
  open_ops : nat;
  pending : nat
}.

Definition protocol_start : Protocol :=
  {| armed := false; open_ops := 0; pending := 0 |}.

(** An instruction needs an arrive before it; a thread touches its
    accumulator (zeroing it, storing from it) only while no
    instruction is issued or committed and not waited for. *)
Definition protocol_step (st : Protocol) (e : Event) : option Protocol :=
  match e with
  | EvArrive =>
      Some {| armed := true; open_ops := open_ops st; pending := pending st |}
  | EvMma _ =>
      if armed st
      then Some {| armed := true; open_ops := S (open_ops st); pending := pending st |}
      else None
  | EvCommit =>
      Some {| armed := false; open_ops := 0;
              pending := if Nat.eqb (open_ops st) 0 then pending st else S (pending st) |}
  | EvWait n =>
      Some {| armed := armed st; open_ops := open_ops st;
              pending := Nat.min (pending st) n |}
  | EvZeroAcc _ | EvStore _ _ _ =>
      if Nat.eqb (open_ops st) 0 && Nat.eqb (pending st) 0 then Some st else None
  | EvMakeDesc _ | EvLoadMetadata _ | EvFence => Some st
  end.

Fixpoint protocol_run (st : Protocol) (evs : list Event) : option Protocol :=
  match evs with
  | [] => Some st
  | e :: rest =>
      match protocol_step st e with
      | Some st' => protocol_run st' rest
      | None => None
      end
  end.

(** Split on the integer comparisons of the goal. *)
Ltac case_cmp_with test spec :=
  match goal with
  | |- context [test ?lhs ?rhs] => destruct (spec lhs rhs)
  end.

Ltac case_cmp :=
  repeat first [ case_cmp_with Z.leb Z.leb_spec
               | case_cmp_with Z.ltb Z.ltb_spec
               | case_cmp_with Z.eqb Z.eqb_spec ].

(** One launch of the copy-only kernel on tile [t] of the array [data],
    as [main] does it for the second tile: the array afterwards. *)
Definition add_one_launch (sched : list Z) (t : Z) (data : list Z) : option (list Z) :=
  s ← snd <$> AddOne.add_one_kernel sched
                (AddOne.create_1d_tensor_map AddOne.array_size AddOne.tile_size)
                (AddOne.tile_size * t) (AddOne.initial data);
  Some (AddOne.d_data s).

(** ** Facts about C arithmetic and thread coordinates *)

Lemma cint_div_nonneg a b : 0 <= a -> 0 < b -> CInt.div a b = a / b.
Proof. intros. unfold CInt.div. apply Z.quot_div_nonneg; lia. Qed.

Lemma cint_rem_nonneg a b : 0 <= a -> 0 < b -> CInt.rem a b = a mod b.
Proof. intros. unfold CInt.rem. apply Z.rem_mod_nonneg; lia. Qed.

Lemma cint_shr_2 a : CInt.shr a 2 = a / 4.
Proof. unfold CInt.shr. rewrite Z.shiftr_div_pow2 by lia. reflexivity. Qed.

Lemma cint_band_3 a : CInt.band a 3 = a mod 4.
Proof.
  unfold CInt.band. change 3 with (Z.ones 2).
  rewrite Z.land_ones by lia. reflexivity.
Qed.

Lemma cint_add_small a b : CInt.in_range (a + b) -> CInt.add a b = a + b.
Proof.
  unfold CInt.in_range, CInt.INT_MIN, CInt.INT_MAX, CInt.add, CInt.wrap.
  intros H. rewrite Z.mod_small by lia. lia.
Qed.

Lemma threads_per_block_eq : threads_per_block = 128.
Proof. reflexivity. Qed.

(** Every thread id splits into warp, lane group and lane in group. *)
Lemma tid_decompose tid :
  valid_tid tid ->
  0 <= warp_id tid < 4 /\ 0 <= group_id tid < 8 /\ 0 <= lane_in_group tid < 4 /\
  tid = 32 * warp_id tid + 4 * group_id tid + lane_in_group tid.
Proof.
  unfold valid_tid. rewrite threads_per_block_eq. intros Ht.
  unfold lane_in_group, group_id, lane_id, warp_id.
  rewrite cint_band_3, cint_shr_2, cint_div_nonneg, cint_rem_nonneg by lia.
  pose proof (Z.div_mod tid 32 ltac:(lia)).
  pose proof (Z.mod_pos_bound tid 32 ltac:(lia)).
  pose proof (Z.div_mod (tid mod 32) 4 ltac:(lia)).
  pose proof (Z.mod_pos_bound (tid mod 32) 4 ltac:(lia)).
  assert (0 <= tid / 32 < 4)
    by (split; [apply Z.div_pos; lia | apply Z.div_lt_upper_bound; lia]).
  assert (0 <= tid mod 32 / 4 < 8)
    by (split; [apply Z.div_pos; lia | apply Z.div_lt_upper_bound; lia]).
  lia.
Qed.

(** Conversely, a warp, a lane group and a lane in it name one thread. *)
Lemma coords_compose w g l :
  0 <= w < 4 -> 0 <= g < 8 -> 0 <= l < 4 ->
  valid_tid (32 * w + 4 * g + l) /\
  warp_id (32 * w + 4 * g + l) = w /\
  group_id (32 * w + 4 * g + l) = g /\
  lane_in_group (32 * w + 4 * g + l) = l.
Proof.
  intros Hw Hg Hl.
  assert (Hv : valid_tid (32 * w + 4 * g + l))
    by (unfold valid_tid; rewrite threads_per_block_eq; lia).
  destruct (tid_decompose _ Hv) as (Hw' & Hg' & Hl' & Heq).
  repeat split; try apply Hv; lia.
Qed.

Lemma lane_in_work_group_range tid :
  valid_tid tid -> 0 <= lane_in_work_group tid < 2.
Proof.
  intros Hv. destruct (tid_decompose _ Hv) as (_ & _ & Hl & _).
  unfold lane_in_work_group. rewrite cint_rem_nonneg by lia.
  apply Z.mod_pos_bound. lia.
Qed.

(** An output word splits into warp band, row band, lane group and lane. *)
Lemma word_decompose (o q : Z) :
  0 < q -> 0 <= o < 4 * (16 * q) ->
  exists w b g l, 0 <= w < 4 /\ 0 <= b < 2 /\ 0 <= g < 8 /\ 0 <= l < q /\
                  o = w * (16 * q) + (g + 8 * b) * q + l.
Proof.
  intros Hq Ho.
  set (r1 := o mod (16 * q)).
  set (r2 := r1 mod (8 * q)).
  exists (o / (16 * q)), (r1 / (8 * q)), (r2 / q), (r2 mod q).
  pose proof (Z.div_mod o (16 * q) ltac:(lia)) as E1.
  pose proof (Z.mod_pos_bound o (16 * q) ltac:(lia)) as B1.
  pose proof (Z.div_mod r1 (8 * q) ltac:(lia)) as E2.
  pose proof (Z.mod_pos_bound r1 (8 * q) ltac:(lia)) as B2.
  pose proof (Z.div_mod r2 q ltac:(lia)) as E3.
  pose proof (Z.mod_pos_bound r2 q ltac:(lia)) as B3.
  fold r1 in E1, B1. fold r2 in E2, B2.
  assert (0 <= o / (16 * q) < 4)
    by (split; [apply Z.div_pos; lia | apply Z.div_lt_upper_bound; lia]).
  assert (0 <= r1 / (8 * q) < 2)
    by (split; [apply Z.div_pos; lia | apply Z.div_lt_upper_bound; lia]).
  assert (0 <= r2 / q < 8)
    by (split; [apply Z.div_pos; lia | apply Z.div_lt_upper_bound; lia]).
  repeat split; lia.
Qed.

(** ** The result scatter of the dense kernel *)

(** The store that reads [c[slot]] is the [slot]-th of the thread. *)
Lemma dense_stores_lookup tid k :
  Dense.stores tid !! k =
  if decide (k < Dense.acc_regs)%nat then Some (Dense.scatter tid k, k) else None.
Proof.
  unfold Dense.acc_regs.
  destruct k as [|[|[|[|k]]]]; reflexivity.
Qed.

(** Offsets in terms of warp [w], row band [b], lane group [g], column
    half [h] and lane [l]; the register is [c[b + 2 * h]]. *)
Lemma dense_scatter_form tid slot :
  valid_tid tid -> (slot < Dense.acc_regs)%nat ->
  exists w g l b h,
    0 <= w < 4 /\ 0 <= g < 8 /\ 0 <= l < 4 /\ 0 <= b < 2 /\ 0 <= h < 2 /\
    tid = 32 * w + 4 * g + l /\ Z.of_nat slot = b + 2 * h /\
    Dense.scatter tid slot = 128 * w + 64 * b + 8 * g + 4 * h + l.
Proof.
  intros Hv Hs. destruct (tid_decompose _ Hv) as (Hw & Hg & Hl & Heq).
  exists (warp_id tid), (group_id tid), (lane_in_group tid).
  unfold Dense.acc_regs in Hs.
  destruct slot as [|[|[|[|slot]]]]; [exists 0, 0 | exists 1, 0 | exists 0, 1 | exists 1, 1 | lia];
    unfold Dense.scatter, Dense.offset1, Dense.offset2; repeat split; lia.
Qed.

Lemma dense_scatter_range tid slot :
  valid_tid tid -> (slot < Dense.acc_regs)%nat ->
  0 <= Dense.scatter tid slot < Dense.C_words.
Proof.
  intros Hv Hs.
  destruct (dense_scatter_form _ _ Hv Hs) as (w & g & l & b & h & ? & ? & ? & ? & ? & _ & _ & ->).
  change Dense.C_words with 512. lia.
Qed.

Lemma dense_scatter_inj tid slot tid' slot' :
  valid_tid tid -> valid_tid tid' ->
  (slot < Dense.acc_regs)%nat -> (slot' < Dense.acc_regs)%nat ->
  Dense.scatter tid slot = Dense.scatter tid' slot' -> tid = tid' /\ slot = slot'.
Proof.
  intros Hv Hv' Hs Hs'.
  destruct (dense_scatter_form _ _ Hv Hs)
    as (w & g & l & b & h & ? & ? & ? & ? & ? & Ht & Hk & ->).
  destruct (dense_scatter_form _ _ Hv' Hs')
    as (w' & g' & l' & b' & h' & ? & ? & ? & ? & ? & Ht' & Hk' & ->).
  intros Heq.
  assert (w = w') by lia. assert (b = b') by lia. assert (g = g') by lia.
  assert (h = h') by lia. assert (l = l') by lia.
  split; lia.
Qed.

Lemma dense_scatter_surj o :
  0 <= o < Dense.C_words ->
  exists tid slot, valid_tid tid /\ (slot < Dense.acc_regs)%nat /\ Dense.scatter tid slot = o.
Proof.
  change Dense.C_words with (4 * (16 * 8)). intros Ho.
  destruct (word_decompose o 8 ltac:(lia) Ho) as (w & b & g & l8 & Hw & Hb & Hg & Hl8 & ->).
  pose proof (Z.div_mod l8 4 ltac:(lia)) as E.
  pose proof (Z.mod_pos_bound l8 4 ltac:(lia)) as B.
  assert (Hh : 0 <= l8 / 4 < 2)
    by (split; [apply Z.div_pos; lia | apply Z.div_lt_upper_bound; lia]).
  revert E B Hh. generalize (l8 / 4) (l8 mod 4). intros h l E B Hh. subst l8.
  destruct (coords_compose w g l Hw Hg B) as (Hv & Ew & Eg & El).
  exists (32 * w + 4 * g + l), (Z.to_nat (b + 2 * h)).
  split; [exact Hv|]. split; [unfold Dense.acc_regs; lia|].
  assert (Hcases : (b = 0 \/ b = 1) /\ (h = 0 \/ h = 1)) by lia.
  destruct Hcases as [[-> | ->] [-> | ->]]; eval_to_nat;
    unfold Dense.scatter, Dense.offset1, Dense.offset2;
    rewrite Ew, Eg, El; lia.
Qed.

(** ** The result scatter of the sparse kernel *)

Lemma sparse_stores_lookup tid k :
  Sparse.stores tid !! k =
  if decide (k < Sparse.acc_regs)%nat then Some (Sparse.scatter tid k, k) else None.
Proof.
  unfold Sparse.acc_regs.
  destruct k as [|[|k]]; reflexivity.
Qed.

Lemma sparse_scatter_form tid slot :
  valid_tid tid -> (slot < Sparse.acc_regs)%nat ->
  exists w g l,
    0 <= w < 4 /\ 0 <= g < 8 /\ 0 <= l < 4 /\
    tid = 32 * w + 4 * g + l /\
    Sparse.scatter tid slot = 64 * w + 32 * Z.of_nat slot + 4 * g + l.
Proof.
  intros Hv Hs. destruct (tid_decompose _ Hv) as (Hw & Hg & Hl & Heq).
  exists (warp_id tid), (group_id tid), (lane_in_group tid).
  unfold Sparse.acc_regs in Hs.
  destruct slot as [|[|slot]]; [| |lia];
    unfold Sparse.scatter, Sparse.offset1, Sparse.offset2; repeat split; lia.
Qed.

Lemma sparse_scatter_range tid slot :
  valid_tid tid -> (slot < Sparse.acc_regs)%nat ->
  0 <= Sparse.scatter tid slot < Sparse.C_words.
Proof.
  intros Hv Hs.
  destruct (sparse_scatter_form _ _ Hv Hs) as (w & g & l & ? & ? & ? & _ & ->).
  change Sparse.C_words with 256. unfold Sparse.acc_regs in Hs. lia.
Qed.

Lemma sparse_scatter_inj tid slot tid' slot' :
  valid_tid tid -> valid_tid tid' ->
  (slot < Sparse.acc_regs)%nat -> (slot' < Sparse.acc_regs)%nat ->
  Sparse.scatter tid slot = Sparse.scatter tid' slot' -> tid = tid' /\ slot = slot'.
Proof.
  intros Hv Hv' Hs Hs'.
  destruct (sparse_scatter_form _ _ Hv Hs) as (w & g & l & ? & ? & ? & Ht & ->).
  destruct (sparse_scatter_form _ _ Hv' Hs') as (w' & g' & l' & ? & ? & ? & Ht' & ->).
  unfold Sparse.acc_regs in *. intros Heq.
  assert (w = w') by lia. assert (slot = slot') by lia. assert (g = g') by lia.
  split; lia.
Qed.

Lemma sparse_scatter_surj o :
  0 <= o < Sparse.C_words ->
  exists tid slot, valid_tid tid /\ (slot < Sparse.acc_regs)%nat /\ Sparse.scatter tid slot = o.
Proof.
  change Sparse.C_words with (4 * (16 * 4)). intros Ho.
  destruct (word_decompose o 4 ltac:(lia) Ho) as (w & b & g & l & Hw & Hb & Hg & Hl & ->).
  destruct (coords_compose w g l Hw Hg Hl) as (Hv & Ew & Eg & El).
  exists (32 * w + 4 * g + l), (Z.to_nat b).
  split; [exact Hv|]. split; [unfold Sparse.acc_regs; lia|].
  assert (Hcases : b = 0 \/ b = 1) by lia.
  destruct Hcases as [-> | ->]; eval_to_nat;
    unfold Sparse.scatter, Sparse.offset1, Sparse.offset2;
    rewrite Ew, Eg, El; lia.
Qed.

(** C4: for the dense and for the sparse kernel, the map from a thread
    of the block and one of its accumulator registers to the word of
    [C_ptr] the thread stores that register to is a bijection onto the
    words of the output (512 for the 64x16 tile, 256 for the 64x8
    tile): every store lands inside the output, no word is written
    twice and none is left unwritten. *)
Theorem scatter_is_bijection :
  scatter_bijection Dense.acc_regs Dense.C_words Dense.scatter /\
  scatter_bijection Sparse.acc_regs Sparse.C_words Sparse.scatter.
Proof.
  split; (split; [|split]).
  - apply dense_scatter_range.
  - apply dense_scatter_inj.
  - apply dense_scatter_surj.
  - apply sparse_scatter_range.
  - apply sparse_scatter_inj.
  - apply sparse_scatter_surj.
Qed.

(** ** Metadata indexing of the sparse kernel *)

Lemma metadata_size_eq : Sparse.metadata_size = 128.
Proof. reflexivity. Qed.

Lemma metadata_offset2_shift tid :
  Sparse.metadata_offset2 tid = Sparse.metadata_offset1 tid + 8 * 2.
Proof. unfold Sparse.metadata_offset1, Sparse.metadata_offset2. lia. Qed.

Lemma metadata_offset1_range tid :
  valid_tid tid -> 0 <= Sparse.metadata_offset1 tid < Sparse.metadata_size - 8 * 2.
Proof.
  intros Hv. destruct (tid_decompose _ Hv) as (Hw & Hg & Hl & _).
  pose proof (lane_in_work_group_range _ Hv).
  rewrite metadata_size_eq. unfold Sparse.metadata_offset1. lia.
Qed.

(** C10: in the sparse kernel both metadata loads of every thread of
    the block are in bounds: each of the two offsets is non-negative and
    below the [metadata_size = (M / 16) * (K / 16) * 8 = 128] elements
    that [main] allocates. *)
Theorem metadata_loads_in_bounds tid :
  valid_tid tid ->
  0 <= Sparse.metadata_offset1 tid < Sparse.metadata_size /\
  0 <= Sparse.metadata_offset2 tid < Sparse.metadata_size /\
  Sparse.metadata_size = 128.
Proof.
  intros Hv. pose proof (metadata_offset1_range _ Hv).
  rewrite metadata_offset2_shift, metadata_size_eq in *. lia.
Qed.

Lemma metadata_loads_in_bounds_witness :
  valid_tid 127 /\
  0 <= Sparse.metadata_offset1 127 < Sparse.metadata_size /\
  0 <= Sparse.metadata_offset2 127 < Sparse.metadata_size /\
  Sparse.metadata_size = 128.
Proof.
  assert (Hv : valid_tid 127) by (unfold valid_tid; rewrite threads_per_block_eq; lia).
  split; [exact Hv | exact (metadata_loads_in_bounds 127 Hv)].
Defined.

(** ** Arrays and schedules *)

Lemma zlookup_nat {A} (l : list A) (i : Z) :
  0 <= i -> zlookup l i = l !! Z.to_nat i.
Proof. intros Hi. unfold zlookup. destruct (Z.ltb_spec i 0); [lia | reflexivity]. Qed.

Lemma zlookup_lt {A} (l : list A) (i : Z) :
  0 <= i < Z.of_nat (length l) -> exists v, zlookup l i = Some v.
Proof.
  intros Hi. rewrite zlookup_nat by lia.
  destruct (lookup_lt_is_Some_2 l (Z.to_nat i)) as [v Hv]; [lia | eauto].
Qed.

Lemma zlookup_Some_range {A} (l : list A) (i : Z) v :
  zlookup l i = Some v -> 0 <= i < Z.of_nat (length l).
Proof.
  unfold zlookup. destruct (Z.ltb_spec i 0); [discriminate|].
  intros Hv. apply lookup_lt_Some in Hv. lia.
Qed.

Lemma zstore_Some {A} (l : list A) (i : Z) (v : A) :
  0 <= i < Z.of_nat (length l) -> zstore l i v = Some (<[Z.to_nat i := v]> l).
Proof.
  intros Hi. unfold zstore.
  destruct (Z.leb_spec 0 i); [|lia].
  destruct (Z.ltb_spec i (Z.of_nat (length l))); [reflexivity | lia].
Qed.


Lemma zlookup_insert_eq {A} (l : list A) (i : Z) (v : A) :
  0 <= i < Z.of_nat (length l) -> zlookup (<[Z.to_nat i := v]> l) i = Some v.
Proof.
  intros Hi. rewrite zlookup_nat by lia. apply list_lookup_insert_eq. lia.
Qed.

Lemma zlookup_insert_ne {A} (l : list A) (i j : Z) (v : A) :
  0 <= i -> i <> j -> zlookup (<[Z.to_nat i := v]> l) j = zlookup l j.
Proof.
  intros Hi Hne. unfold zlookup. destruct (Z.ltb_spec j 0); [reflexivity|].
  apply list_lookup_insert_ne. lia.
Qed.

Lemma valid_tid_all_tids tid : valid_tid tid <-> tid ∈ all_tids.
Proof.
  unfold valid_tid, all_tids. rewrite threads_per_block_eq.
  rewrite list_elem_of_fmap. split.
  - intros Ht. exists (Z.to_nat tid). split; [lia|].
    apply elem_of_seq. lia.
  - intros (n & -> & Hn). apply elem_of_seq in Hn. lia.
Qed.

Lemma occurrences_cons_eq tid rest :
  occurrences tid (tid :: rest) = S (occurrences tid rest).
Proof. unfold occurrences. rewrite filter_cons_True by reflexivity. reflexivity. Qed.

Lemma occurrences_cons_ne tid t rest :
  t <> tid -> occurrences tid (t :: rest) = occurrences tid rest.
Proof. intros Hne. unfold occurrences. rewrite filter_cons_False by exact Hne. reflexivity. Qed.

Lemma complete_schedule_spec n sched :
  complete_schedule n sched = true ->
  Forall valid_tid sched /\ forall tid, valid_tid tid -> occurrences tid sched = n.
Proof.
  unfold complete_schedule. rewrite andb_true_iff, !forallb_forall.
  intros [Hin Hocc]. split.
  - apply Forall_forall. intros t Ht. apply valid_tid_all_tids.
    apply list_elem_of_In in Ht. specialize (Hin t Ht).
    apply bool_decide_eq_true in Hin. exact Hin.
  - intros tid Hv. apply valid_tid_all_tids, list_elem_of_In in Hv.
    specialize (Hocc tid Hv). apply Nat.eqb_eq in Hocc. exact Hocc.
Qed.

Lemma reads_of_app tid slot evs evs' :
  reads_of tid slot (evs ++ evs') = (reads_of tid slot evs + reads_of tid slot evs')%nat.
Proof. unfold reads_of. rewrite List.filter_app, length_app. reflexivity. Qed.

Lemma reads_of_store tid slot t k o :
  reads_of tid slot [EvStore t k o] = if decide (t = tid /\ k = slot) then 1%nat else 0%nat.
Proof.
  unfold reads_of. simpl.
  destruct (Z.eqb_spec t tid), (Nat.eqb_spec k slot); simpl;
    destruct (decide _) as [[? ?]|Hn]; try reflexivity; try congruence.
  exfalso. apply Hn. split; assumption.
Qed.

(** ** The interleaved scatter

    The section follows one scatter phase: the accumulators [c] are
    final, the threads store them in the order a schedule gives.  The
    invariant says which words already hold a register and which still
    hold what the buffer started with. *)

Section ScatterPhase.

Local Unset Default Proof Using.

Variable stores : Z -> list (Z * nat).
Variable slots : nat.
Variable words : Z.
Variable f : Z -> nat -> Z.

Hypothesis stores_lookup : forall tid k,
    stores tid !! k = if decide (k < slots)%nat then Some (f tid k, k) else None.
Hypothesis f_bijection : scatter_bijection slots words f.

Variable c : list (list Z).
Hypothesis c_rows : length c = Z.to_nat threads_per_block.
Hypothesis c_cols : Forall (fun row => length row = slots) c.

(** Inside the section the register file and the scatter are fixed. *)
Local Abbreviation reg := (reg c).
Local Abbreviation scatter_inv := (scatter_inv slots words f c).

Lemma reg_lookup tid k :
  valid_tid tid -> (k < slots)%nat ->
  exists row, zlookup c tid = Some row /\ row !! k = Some (reg tid k).
Proof.
  intros Hv Hk. unfold valid_tid in Hv.
  destruct (zlookup_lt c tid) as [row Hrow]; [lia|].
  exists row. split; [exact Hrow|].
  assert (Hlen : length row = slots).
  { pose proof (proj1 (Forall_forall _ _) c_cols) as Hcols. apply Hcols.
    rewrite zlookup_nat in Hrow by lia.
    eapply list_elem_of_lookup_2. exact Hrow. }
  destruct (lookup_lt_is_Some_2 row k) as [v Hv']; [lia|].
  unfold reg. rewrite Hrow. simpl. rewrite Hv'. reflexivity.
Qed.

Lemma stores_length tid : length (stores tid) = slots.
Proof.
  pose proof (stores_lookup tid slots) as Hge.
  destruct (decide (slots < slots)%nat); [lia|].
  apply lookup_ge_None in Hge.
  destruct (decide (slots = 0%nat)) as [E|E]; [lia|].
  pose proof (stores_lookup tid (slots - 1)) as Hlt.
  destruct (decide (slots - 1 < slots)%nat); [|lia].
  apply lookup_lt_Some in Hlt. lia.
Qed.

Lemma scatter_inv_initial cs C0 ev0 sched :
  Z.of_nat (length C0) = words ->
  (forall tid k, reads_of tid k ev0 = 0%nat) ->
  complete_schedule slots sched = true ->
  scatter_inv C0 ev0 sched
    {| copy_state := cs;
       regs_c := c; in_flight := []; committed := []; gmem_C := C0;
       store_pc := replicate (Z.to_nat threads_per_block) 0%nat; events := ev0 |}.
Proof.
  intros HC Hev Hsched. apply complete_schedule_spec in Hsched as [Hall Hocc].
  unfold scatter_inv. state_simpl. split_and!; try assumption; try reflexivity.
  - exists []. rewrite app_nil_r. split; [reflexivity | constructor].
  - intros tid Hv. exists 0%nat. split; [|split].
    + unfold valid_tid in Hv. rewrite zlookup_nat by lia.
      apply lookup_replicate_2. lia.
    + rewrite Hocc by exact Hv. reflexivity.
    + intros k Hk. destruct (decide (k < 0)%nat); [lia|]. split; [reflexivity | apply Hev].
Qed.

Lemma store_step_inv C0 ev0 tid rest s :
  scatter_inv C0 ev0 (tid :: rest) s ->
  exists s', store_step stores tid s = Some (tt, s') /\
             copy_state s' = copy_state s /\ scatter_inv C0 ev0 rest s'.
Proof.
  intros (Hc & Hfl & Hcm & Hlen & Hpcs & Hall & (sev & Hev & Hsev) & Hthreads).
  destruct f_bijection as (Hrange & Hinj & _).
  apply Forall_cons in Hall as [Hv Hall].
  destruct (Hthreads tid Hv) as (pc & Hpc & Hocc & Hwords).
  rewrite occurrences_cons_eq in Hocc.
  assert (Hlt : (pc < slots)%nat) by lia.
  destruct (reg_lookup tid pc Hv Hlt) as (row & Hrow & Hreg).
  pose proof (Hrange tid pc Hv Hlt) as Hoff.
  unfold store_step. rewrite Hfl, Hcm, Hpc. simpl.
  rewrite stores_lookup. destruct (decide (pc < slots)%nat); [|lia]. simpl.
  rewrite Hc, Hrow. simpl. rewrite Hreg. simpl.
  rewrite zstore_Some by lia. simpl.
  eexists. split; [reflexivity|]. split; [reflexivity|].
  unfold scatter_inv. state_simpl. split_and!; try assumption; try reflexivity.
  - rewrite length_insert. exact Hlen.
  - rewrite length_insert. exact Hpcs.
  - exists (sev ++ [EvStore tid pc (f tid pc)]). split.
    + rewrite Hev, app_assoc. reflexivity.
    + apply Forall_app. split; [exact Hsev|].
      constructor; [|constructor]. do 3 eexists. reflexivity.
  - intros t Ht. destruct (decide (t = tid)) as [->|Hne].
    + exists (S pc). split; [|split].
      * unfold valid_tid in Hv. apply zlookup_insert_eq.
        apply zlookup_Some_range in Hpc. lia.
      * lia.
      * intros k Hk. rewrite reads_of_app, reads_of_store.
        destruct (Hwords k Hk) as [Hw Hr]. rewrite Hr.
        destruct (decide (k = pc)) as [->|Hkne].
        -- rewrite zlookup_insert_eq by lia.
           destruct (decide (pc < S pc)%nat); [|lia].
           destruct (decide (pc < pc)%nat); [lia|].
           destruct (decide (tid = tid /\ pc = pc)) as [_|Hn]; [|exfalso; apply Hn; split; reflexivity].
           split; reflexivity.
        -- assert (f tid pc <> f tid k).
           { intros Heq. destruct (Hinj _ _ _ _ Hv Hv Hlt Hk Heq). lia. }
           rewrite zlookup_insert_ne by lia. rewrite Hw.
           destruct (decide (tid = tid /\ pc = k)) as [[_ ?]|_]; [lia|].
           destruct (decide (k < pc)%nat), (decide (k < S pc)%nat); try lia; split; reflexivity.
    + destruct (Hthreads t Ht) as (pc' & Hpc' & Hocc' & Hwords').
      rewrite occurrences_cons_ne in Hocc' by congruence.
      exists pc'. split; [|split].
      * unfold valid_tid in Hv. rewrite zlookup_insert_ne by lia. exact Hpc'.
      * exact Hocc'.
      * intros k Hk. rewrite reads_of_app, reads_of_store.
        destruct (Hwords' k Hk) as [Hw Hr]. rewrite Hr.
        assert (f tid pc <> f t k).
        { intros Heq. destruct (Hinj _ _ _ _ Hv Ht Hlt Hk Heq). congruence. }
        rewrite zlookup_insert_ne by lia. rewrite Hw.
        destruct (decide (tid = t /\ pc = k)) as [[? _]|_]; [congruence|].
        split; [reflexivity | lia].
Qed.

Lemma scatter_phase_inv C0 ev0 sched s :
  scatter_inv C0 ev0 sched s ->
  exists s', scatter_phase stores sched s = Some (tt, s') /\
             copy_state s' = copy_state s /\ scatter_inv C0 ev0 [] s'.
Proof.
  revert s. induction sched as [|tid rest IH]; intros s Hinv.
  - exists s. split; [reflexivity | split; [reflexivity | exact Hinv]].
  - destruct (store_step_inv _ _ _ _ _ Hinv) as (s1 & Hstep & Hcopy1 & Hinv1).
    destruct (IH _ Hinv1) as (s' & Hrun & Hcopy & Hinv').
    exists s'. split; [|split; [congruence | exact Hinv']].
    simpl. unfold bind. rewrite Hstep. exact Hrun.
Qed.

Lemma all_done_inv C0 ev0 s :
  scatter_inv C0 ev0 [] s -> all_done stores s = Some (tt, s).
Proof.
  intros (_ & _ & _ & _ & _ & _ & _ & Hthreads).
  unfold all_done.
  assert (H : forallb (fun tid => match zlookup (store_pc s) tid with
                                  | Some pc => Nat.eqb pc (length (stores tid))
                                  | None => false
                                  end) all_tids = true).
  { apply forallb_forall. intros tid Hin.
    apply list_elem_of_In, valid_tid_all_tids in Hin.
    destruct (Hthreads tid Hin) as (pc & -> & Hocc & _).
    rewrite stores_length. apply Nat.eqb_eq.
    unfold occurrences in Hocc. simpl in Hocc. lia. }
  rewrite H. reflexivity.
Qed.

(** Once every thread is done, each word holds the register of the
    one store that owns it. *)
Lemma scatter_inv_final C0 ev0 s :
  scatter_inv C0 ev0 [] s ->
  forall tid k, valid_tid tid -> (k < slots)%nat ->
    zlookup (gmem_C s) (f tid k) = Some (reg tid k) /\
    reads_of tid k (events s) = 1%nat.
Proof.
  intros (_ & _ & _ & _ & _ & _ & _ & Hthreads) tid k Hv Hk.
  destruct (Hthreads tid Hv) as (pc & _ & Hocc & Hwords).
  unfold occurrences in Hocc. simpl in Hocc.
  destruct (Hwords k Hk) as [Hw Hr].
  destruct (decide (k < pc)%nat); [|lia]. split; assumption.
Qed.

(** The output does not depend on the schedule nor on what the buffer
    held before. *)
Lemma scatter_final_unique C0 ev0 s C0' ev0' s' :
  scatter_inv C0 ev0 [] s -> scatter_inv C0' ev0' [] s' ->
  gmem_C s = gmem_C s'.
Proof.
  intros Hs Hs'.
  pose proof (scatter_inv_final _ _ _ Hs) as Hf.
  pose proof (scatter_inv_final _ _ _ Hs') as Hf'.
  destruct Hs as (_ & _ & _ & Hlen & _). destruct Hs' as (_ & _ & _ & Hlen' & _).
  destruct f_bijection as (_ & _ & Hsurj).
  apply list_eq. intros i.
  destruct (decide (Z.of_nat i < words)) as [Hi|Hi].
  - destruct (Hsurj (Z.of_nat i) ltac:(lia)) as (tid & k & Hv & Hk & Hfk).
    destruct (Hf tid k Hv Hk) as [H1 _]. destruct (Hf' tid k Hv Hk) as [H2 _].
    rewrite Hfk, zlookup_nat, Nat2Z.id in H1, H2 by lia. congruence.
  - rewrite !lookup_ge_None_2 by lia. reflexivity.
Qed.

End ScatterPhase.

(** ** The accumulator file and the views of the log *)

Lemma zero_regs_shape n : acc_shape n (zero_regs n).
Proof.
  split; [apply length_replicate|].
  apply Forall_forall. intros row Hrow.
  apply elem_of_replicate in Hrow as [-> _]. apply length_replicate.
Qed.

(** An instruction rewrites registers in place: the file keeps its shape. *)
Lemma apply_mma_shape hw sh n c op : acc_shape n c -> acc_shape n (apply_mma hw sh c op).
Proof.
  intros [Hrows Hcols]. unfold apply_mma. split.
  - rewrite length_imap. exact Hrows.
  - apply Forall_forall. intros row Hrow.
    apply list_elem_of_lookup in Hrow as [i Hi].
    rewrite list_lookup_imap in Hi.
    destruct (c !! i) as [row0|] eqn:E; simpl in Hi; [|discriminate].
    injection Hi as <-. rewrite length_imap.
    eapply (proj1 (Forall_forall _ _) Hcols), list_elem_of_lookup_2, E.
Qed.

Lemma retire_batch_shape hw sh n batch c :
  acc_shape n c -> acc_shape n (retire_batch hw sh c batch).
Proof.
  revert c. unfold retire_batch.
  induction batch as [|op batch IH]; intros c Hc; simpl; [exact Hc|].
  apply IH, apply_mma_shape, Hc.
Qed.

(** What the log of a phase of stores contributes to the other views. *)
Lemma stores_only_views sev :
  Forall is_store sev ->
  issued_mmas sev = [] /\ built_descs sev = [] /\ metadata_loads sev = [] /\
  List.filter is_commit sev = [].
Proof.
  induction 1 as [|e sev (t & k & o & ->) _ (IH1 & IH2 & IH3 & IH4)]; [repeat split|].
  split_and!; [exact IH1 | exact IH2 | exact IH3 | exact IH4].
Qed.

(** ** Loading the tiles *)

Lemma each_thread_leader {S} (leader other : Exec S unit) :
  each_thread (fun tid => if tid =? 0 then leader else other) =
  (leader >>> for_each (tail all_tids) (fun _ => other))%exec.
Proof. reflexivity. Qed.

Lemma for_each_ret {S} tids : for_each tids (fun _ => @ret S unit tt) = ret tt.
Proof. induction tids as [|tid tids IH]; [reflexivity | exact IH]. Qed.

Lemma barrier_arrive_step b bk sh s :
  copy_state s = {| bar := Some b; bulk := bk; smem := sh |} ->
  barrier_arrive s =
  Some (tt, with_copy
              {| bar := Some {| bar_expected := bar_expected b;
                                bar_arrived := bar_arrived b + 1;
                                bar_tx := bar_tx b |};
                 bulk := bk; smem := sh |} s).
Proof.
  intros Hs. destruct s as [cs ? ? ? ? ? ?]. simpl in Hs. subst cs. reflexivity.
Qed.

(** The threads other than thread 0 arrive once each. *)
Lemma for_each_arrive tids b bk sh s :
  copy_state s = {| bar := Some b; bulk := bk; smem := sh |} ->
  for_each tids (fun _ => barrier_arrive) s =
  Some (tt, with_copy
              {| bar := Some {| bar_expected := bar_expected b;
                                bar_arrived := bar_arrived b + Z.of_nat (length tids);
                                bar_tx := bar_tx b |};
                 bulk := bk; smem := sh |} s).
Proof.
  revert b s. induction tids as [|tid tids IH]; intros b s Hs.
  - destruct s as [cs ? ? ? ? ? ?], b as [e a t]. simpl in Hs. subst cs.
    unfold for_each, ret, with_copy. simpl. rewrite Z.add_0_r. reflexivity.
  - cbn [for_each]. unfold bind at 1.
    rewrite (barrier_arrive_step b bk sh s Hs).
    erewrite IH by reflexivity.
    unfold with_copy. cbn [regs_c in_flight committed gmem_C store_pc events
                            bar_expected bar_arrived bar_tx length].
    replace (bar_arrived b + 1 + Z.of_nat (length tids))
      with (bar_arrived b + Z.of_nat (S (length tids))) by lia.
    reflexivity.
Qed.

(** With the bytes of the two boxes announced, the phase completes:
    all 128 threads have arrived, the copy engine has delivered what
    thread 0 announced, and the buffers hold the two boxes. *)
Lemma load_tiles_ok hw tma tmb bytes s :
  bulk (copy_state s) = [] ->
  bytes = box_bytes tma + box_bytes tmb ->
  load_tiles hw tma tmb bytes s = Some (tt, with_copy (copy_after_load hw tma tmb) s).
Proof.
  intros Hbulk ->. unfold load_tiles.
  rewrite (each_thread_leader (barrier_init threads_per_block) (ret tt)).
  rewrite (each_thread_leader
             (cp_async_bulk_tensor_2d_global_to_shared hw BufA tma 0 0 >>>
              cp_async_bulk_tensor_2d_global_to_shared hw BufB tmb 0 0 >>>
              barrier_arrive_tx 1 (box_bytes tma + box_bytes tmb))%exec
             barrier_arrive).
  destruct s as [[b0 bk sh0] ? ? ? ? ? ?]. simpl in Hbulk. subst bk.
  rewrite for_each_ret.
  cbv [barrier_init bind get_copy set_copy with_copy copy_state syncthreads ret
       cp_async_bulk_tensor_2d_global_to_shared barrier_arrive_tx on_barrier
       bar bulk smem regs_c in_flight committed gmem_C store_pc events app].
  erewrite for_each_arrive by reflexivity.
  cbv [barrier_wait bind get_copy set_copy with_copy copy_state syncthreads ret
       bar bulk smem regs_c in_flight committed gmem_C store_pc events
       bar_expected bar_arrived bar_tx bulk_bytes foldr copy_bytes].
  change (Z.of_nat (length (tail all_tids))) with 127.
  change (0 + 1 + 127) with threads_per_block.
  rewrite Z.eqb_refl.
  replace (0 + (box_bytes tma + box_bytes tmb) =? box_bytes tma + (box_bytes tmb + 0))
    with true by (symmetry; apply Z.eqb_eq; lia).
  reflexivity.
Qed.

(** ** The kernels up to the scatter *)

Lemma dense_kernel_prefix hw lay sched h_A h_B C :
  Dense.kernel hw lay sched (dense_map_a h_A) (dense_map_b h_B) (initial C) =
  (scatter_phase Dense.stores sched >>> all_done Dense.stores)%exec
    {| copy_state := copy_after_load hw (dense_map_a h_A) (dense_map_b h_B);
       regs_c := dense_acc hw lay h_A h_B; in_flight := []; committed := [];
       gmem_C := C; store_pc := replicate (Z.to_nat threads_per_block) 0%nat;
       events := dense_events lay |}.
Proof.
  unfold Dense.kernel. unfold bind at 1 2. cbn [syncthreads ret].
  rewrite load_tiles_ok by reflexivity.
  cbv [bind emit ret build_desc zero_acc set_regs warpgroup_arrive wgmma
       warpgroup_commit_batch warpgroup_wait threadfence initial with_copy
       copy_state regs_c in_flight committed gmem_C store_pc events].
  cbn [length Nat.sub take drop foldl app retire_batch smem copy_after_load].
  unfold dense_acc, dense_events, dense_op, dense_smem.
  reflexivity.
Qed.

Lemma load_metadata_ok metadata_array offset :
  Z.of_nat (length metadata_array) = Sparse.metadata_size ->
  (forall tid, valid_tid tid -> 0 <= offset tid < Sparse.metadata_size) ->
  load_metadata metadata_array offset =
  (emit (EvLoadMetadata (offset <$> all_tids)) >>>
   ret (metadata_regs metadata_array offset))%exec.
Proof.
  intros Hlen Hoff. unfold load_metadata.
  assert (E : mapM (fun tid => zlookup metadata_array (offset tid)) all_tids
              = Some (metadata_regs metadata_array offset)).
  { apply mapM_Some_2. unfold metadata_regs.
    apply Forall2_fmap_r, Forall_Forall2_diag, Forall_forall.
    intros tid Hin. apply valid_tid_all_tids in Hin.
    destruct (zlookup_lt metadata_array (offset tid)) as [v Hv].
    - specialize (Hoff tid Hin). lia.
    - unfold compose. rewrite Hv. reflexivity. }
  rewrite E. reflexivity.
Qed.

Lemma sparse_kernel_prefix hw lay sched h_A2 h_B metadata_array C :
  Z.of_nat (length metadata_array) = Sparse.metadata_size ->
  Sparse.kernel hw lay sched (sparse_map_a h_A2) (sparse_map_b h_B) metadata_array
    (initial C) =
  (scatter_phase Sparse.stores sched >>> all_done Sparse.stores)%exec
    {| copy_state := copy_after_load hw (sparse_map_a h_A2) (sparse_map_b h_B);
       regs_c := sparse_acc hw lay h_A2 h_B metadata_array;
       in_flight := []; committed := [];
       gmem_C := C; store_pc := replicate (Z.to_nat threads_per_block) 0%nat;
       events := sparse_events lay metadata_array |}.
Proof.
  intros Hlen. unfold Sparse.kernel.
  rewrite (load_metadata_ok metadata_array Sparse.metadata_offset1 Hlen)
    by (intros tid Hv; pose proof (metadata_offset1_range tid Hv); lia).
  rewrite (load_metadata_ok metadata_array Sparse.metadata_offset2 Hlen)
    by (intros tid Hv; pose proof (metadata_offset1_range tid Hv);
        rewrite metadata_offset2_shift; lia).
  unfold bind at 1. rewrite load_tiles_ok by reflexivity.
  cbv [bind emit ret build_desc zero_acc set_regs warpgroup_arrive wgmma syncthreads
       warpgroup_commit_batch warpgroup_wait threadfence initial with_copy
       copy_state regs_c in_flight committed gmem_C store_pc events].
  cbn [length Nat.sub take drop foldl app retire_batch smem copy_after_load].
  unfold sparse_acc, sparse_events, sparse_op1, sparse_op2, sparse_smem.
  reflexivity.
Qed.

(** ** Complete runs of the two kernels *)

Lemma dense_bijection : scatter_bijection Dense.acc_regs Dense.C_words Dense.scatter.
Proof.
  split; [|split];
    [apply dense_scatter_range | apply dense_scatter_inj | apply dense_scatter_surj].
Qed.

Lemma sparse_bijection : scatter_bijection Sparse.acc_regs Sparse.C_words Sparse.scatter.
Proof.
  split; [|split];
    [apply sparse_scatter_range | apply sparse_scatter_inj | apply sparse_scatter_surj].
Qed.

Lemma dense_acc_shape hw lay h_A h_B : acc_shape Dense.acc_regs (dense_acc hw lay h_A h_B).
Proof. apply apply_mma_shape, zero_regs_shape. Qed.

Lemma sparse_acc_shape hw lay h_A2 h_B metadata_array :
  acc_shape Sparse.acc_regs (sparse_acc hw lay h_A2 h_B metadata_array).
Proof. do 2 apply apply_mma_shape. apply zero_regs_shape. Qed.

Lemma dense_events_no_reads lay tid k : reads_of tid k (dense_events lay) = 0%nat.
Proof. reflexivity. Qed.

Lemma sparse_events_no_reads lay metadata_array tid k :
  reads_of tid k (sparse_events lay metadata_array) = 0%nat.
Proof. reflexivity. Qed.

(** The dense kernel returns for every complete schedule, and ends in a
    state where each output word holds the register of its one store. *)
Lemma dense_run hw lay sched h_A h_B C :
  Z.of_nat (length C) = Dense.C_words ->
  complete_schedule Dense.acc_regs sched = true ->
  exists s, Dense.main hw lay sched h_A h_B C = Some s /\
            smem (copy_state s) = dense_smem hw h_A h_B /\
            scatter_inv Dense.acc_regs Dense.C_words Dense.scatter
              (dense_acc hw lay h_A h_B) C (dense_events lay) [] s.
Proof.
  intros HC Hsched. destruct (dense_acc_shape hw lay h_A h_B) as [Hrows Hcols].
  assert (Hinit : scatter_inv Dense.acc_regs Dense.C_words Dense.scatter
                    (dense_acc hw lay h_A h_B) C (dense_events lay) sched
                    {| copy_state := copy_after_load hw (dense_map_a h_A) (dense_map_b h_B);
                       regs_c := dense_acc hw lay h_A h_B; in_flight := [];
                       committed := []; gmem_C := C;
                       store_pc := replicate (Z.to_nat threads_per_block) 0%nat;
                       events := dense_events lay |})
    by (apply scatter_inv_initial; auto using dense_events_no_reads).
  eapply scatter_phase_inv in Hinit
    as (s & Hrun & Hcopy & Hinv); eauto using dense_stores_lookup, dense_bijection.
  exists s. split; [|split; [rewrite Hcopy; reflexivity | exact Hinv]].
  unfold Dense.main, Dense.launch. fold (dense_map_a h_A) (dense_map_b h_B).
  rewrite dense_kernel_prefix. unfold bind. rewrite Hrun.
  erewrite all_done_inv; eauto using dense_stores_lookup.
Qed.

Lemma sparse_run hw lay sched h_A2 h_B metadata_array C :
  Z.of_nat (length C) = Sparse.C_words ->
  Z.of_nat (length metadata_array) = Sparse.metadata_size ->
  complete_schedule Sparse.acc_regs sched = true ->
  exists s, Sparse.main hw lay sched h_A2 h_B metadata_array C = Some s /\
            smem (copy_state s) = sparse_smem hw h_A2 h_B /\
            scatter_inv Sparse.acc_regs Sparse.C_words Sparse.scatter
              (sparse_acc hw lay h_A2 h_B metadata_array) C
              (sparse_events lay metadata_array) [] s.
Proof.
  intros HC Hmeta Hsched.
  destruct (sparse_acc_shape hw lay h_A2 h_B metadata_array) as [Hrows Hcols].
  assert (Hinit : scatter_inv Sparse.acc_regs Sparse.C_words Sparse.scatter
                    (sparse_acc hw lay h_A2 h_B metadata_array) C
                    (sparse_events lay metadata_array) sched
                    {| copy_state :=
                         copy_after_load hw (sparse_map_a h_A2) (sparse_map_b h_B);
                       regs_c := sparse_acc hw lay h_A2 h_B metadata_array;
                       in_flight := []; committed := []; gmem_C := C;
                       store_pc := replicate (Z.to_nat threads_per_block) 0%nat;
                       events := sparse_events lay metadata_array |})
    by (apply scatter_inv_initial; auto using sparse_events_no_reads).
  eapply scatter_phase_inv in Hinit
    as (s & Hrun & Hcopy & Hinv); eauto using sparse_stores_lookup, sparse_bijection.
  exists s. split; [|split; [rewrite Hcopy; reflexivity | exact Hinv]].
  unfold Sparse.main, Sparse.launch. fold (sparse_map_a h_A2) (sparse_map_b h_B).
  rewrite sparse_kernel_prefix by exact Hmeta.
  unfold bind. rewrite Hrun.
  erewrite all_done_inv; eauto using sparse_stores_lookup.
Qed.

(** The stores at the end of a run add nothing to the views of its log. *)
Lemma run_views slots words f c C0 ev0 rest s :
  scatter_inv slots words f c C0 ev0 rest s ->
  regs_c s = c /\
  issued_mmas (events s) = issued_mmas ev0 /\
  built_descs (events s) = built_descs ev0 /\
  metadata_loads (events s) = metadata_loads ev0 /\
  exists sev, events s = ev0 ++ sev /\ Forall is_store sev.
Proof.
  intros (Hc & _ & _ & _ & _ & _ & (sev & Hev & Hsev) & _).
  destruct (stores_only_views sev Hsev) as (H1 & H2 & H3 & _).
  split; [exact Hc|].
  unfold issued_mmas, built_descs, metadata_loads in *.
  rewrite Hev, !omap_app, H1, H2, H3, !app_nil_r.
  split_and!; try reflexivity. exists sev. split; [reflexivity | exact Hsev].
Qed.

(** ** Determinism of the output *)

(** C9: two runs of a kernel on the same inputs (operand tiles, and for
    the sparse kernel the metadata buffer) leave the same words in the
    output buffer, whatever the buffer held before each run and in
    whatever order the threads of each run execute their stores.  Both
    runs return: the barrier phase completes and every thread finishes
    its stores.  The copy engine and the tensor core are any functions
    of their operands. *)
Theorem kernel_output_deterministic
    (hw : Hardware) (lay : SharedLayout)
    (h_A h_B h_A2 h_Bs metadata_array : list Z)
    (Cd Cd' Cs Cs' : list Z) (sd sd' ss ss' : list Z) :
  Z.of_nat (length Cd) = Dense.C_words ->
  Z.of_nat (length Cd') = Dense.C_words ->
  Z.of_nat (length Cs) = Sparse.C_words ->
  Z.of_nat (length Cs') = Sparse.C_words ->
  Z.of_nat (length metadata_array) = Sparse.metadata_size ->
  complete_schedule Dense.acc_regs sd = true ->
  complete_schedule Dense.acc_regs sd' = true ->
  complete_schedule Sparse.acc_regs ss = true ->
  complete_schedule Sparse.acc_regs ss' = true ->
  (exists out,
      gmem_C <$> Dense.main hw lay sd h_A h_B Cd = Some out /\
      gmem_C <$> Dense.main hw lay sd' h_A h_B Cd' = Some out) /\
  (exists out,
      gmem_C <$> Sparse.main hw lay ss h_A2 h_Bs metadata_array Cs = Some out /\
      gmem_C <$> Sparse.main hw lay ss' h_A2 h_Bs metadata_array Cs' = Some out).
Proof.
  intros HCd HCd' HCs HCs' Hmeta Hsd Hsd' Hss Hss'. split.
  - destruct (dense_run hw lay sd h_A h_B Cd HCd Hsd) as (s & -> & _ & Hinv).
    destruct (dense_run hw lay sd' h_A h_B Cd' HCd' Hsd') as (s' & -> & _ & Hinv').
    exists (gmem_C s). split; [reflexivity|]. simpl. f_equal. symmetry.
    eapply scatter_final_unique;
      [apply dense_bijection | apply dense_acc_shape | exact Hinv | exact Hinv'].
  - destruct (sparse_run hw lay ss h_A2 h_Bs metadata_array Cs HCs Hmeta Hss)
      as (s & -> & _ & Hinv).
    destruct (sparse_run hw lay ss' h_A2 h_Bs metadata_array Cs' HCs' Hmeta Hss')
      as (s' & -> & _ & Hinv').
    exists (gmem_C s). split; [reflexivity|]. simpl. f_equal. symmetry.
    eapply scatter_final_unique;
      [apply sparse_bijection | apply sparse_acc_shape | exact Hinv | exact Hinv'].
Qed.

Lemma kernel_output_deterministic_witness :
  complete_schedule Dense.acc_regs (reverse (sequential_schedule Dense.acc_regs)) = true /\
  complete_schedule Sparse.acc_regs (reverse (sequential_schedule Sparse.acc_regs)) = true /\
  (exists out,
      gmem_C <$> Dense.main toy_hardware toy_layout (sequential_schedule Dense.acc_regs)
                   (toy_matrix 128) (toy_matrix 4) (replicate 512 0) = Some out /\
      gmem_C <$> Dense.main toy_hardware toy_layout
                   (reverse (sequential_schedule Dense.acc_regs))
                   (toy_matrix 128) (toy_matrix 4) (replicate 512 (-1)) = Some out) /\
  (exists out,
      gmem_C <$> Sparse.main toy_hardware toy_layout (sequential_schedule Sparse.acc_regs)
                   (toy_matrix 128) (toy_matrix 2) toy_metadata (replicate 256 0)
        = Some out /\
      gmem_C <$> Sparse.main toy_hardware toy_layout
                   (reverse (sequential_schedule Sparse.acc_regs))
                   (toy_matrix 128) (toy_matrix 2) toy_metadata (replicate 256 (-1))
        = Some out).
Proof.
  split; [vm_compute; reflexivity|]. split; [vm_compute; reflexivity|].
  apply (kernel_output_deterministic toy_hardware toy_layout
           (toy_matrix 128) (toy_matrix 4) (toy_matrix 128) (toy_matrix 2)
           toy_metadata (replicate 512 0) (replicate 512 (-1))
           (replicate 256 0) (replicate 256 (-1)));
    vm_compute; reflexivity.
Defined.

(** ** The accumulator *)

(** C7: in both compute kernels the accumulator is a fixed set of
    per-thread registers, 4 in the dense m64n16k16 kernel and 2 in the
    sparse m64n8k32 kernel; it is zeroed before the first tensor-core
    instruction, each instruction accumulates into it (scale-D is 1),
    and its registers are read exactly once each, by the stores of the
    result scatter at the end of the run and by nothing else. *)
Theorem accumulator_discipline
    (hw : Hardware) (lay : SharedLayout)
    (h_A h_B h_A2 h_Bs metadata_array : list Z) (Cd Cs : list Z) (sd ss : list Z) :
  Z.of_nat (length Cd) = Dense.C_words ->
  Z.of_nat (length Cs) = Sparse.C_words ->
  Z.of_nat (length metadata_array) = Sparse.metadata_size ->
  complete_schedule Dense.acc_regs sd = true ->
  complete_schedule Sparse.acc_regs ss = true ->
  Dense.acc_regs = 4%nat /\ Sparse.acc_regs = 2%nat /\
  (exists s, Dense.main hw lay sd h_A h_B Cd = Some s /\
             accumulator_protocol hw Dense.acc_regs s) /\
  (exists s, Sparse.main hw lay ss h_A2 h_Bs metadata_array Cs = Some s /\
             accumulator_protocol hw Sparse.acc_regs s).
Proof.
  intros HCd HCs Hmeta Hsd Hss. split; [reflexivity|]. split; [reflexivity|]. split.
  - destruct (dense_run hw lay sd h_A h_B Cd HCd Hsd) as (s & Hrun & Hsh & Hinv).
    exists s. split; [exact Hrun|].
    destruct (run_views _ _ _ _ _ _ _ _ Hinv) as (Hc & Hm & _ & _ & sev & Hev & Hsev).
    unfold accumulator_protocol. rewrite Hc, Hm, Hsh. split_and!.
    + apply dense_acc_shape.
    + exists [EvMakeDesc (make_desc_a 3 (A_shared lay));
              EvMakeDesc (make_desc_b 3 (B_shared lay))],
             [EvArrive; EvMma (dense_op lay); EvCommit; EvWait 0; EvFence; EvArrive], sev.
      split_and!; [exact Hev | reflexivity | intros; reflexivity | exact Hsev].
    + repeat constructor.
    + reflexivity.
    + intros tid k Hv Hk.
      eapply scatter_inv_final; [apply dense_acc_shape | exact Hinv | exact Hv | exact Hk].
  - destruct (sparse_run hw lay ss h_A2 h_Bs metadata_array Cs HCs Hmeta Hss)
      as (s & Hrun & Hsh & Hinv).
    exists s. split; [exact Hrun|].
    destruct (run_views _ _ _ _ _ _ _ _ Hinv) as (Hc & Hm & _ & _ & sev & Hev & Hsev).
    unfold accumulator_protocol. rewrite Hc, Hm, Hsh. split_and!.
    + apply sparse_acc_shape.
    + exists [EvLoadMetadata (Sparse.metadata_offset1 <$> all_tids);
              EvMakeDesc (make_desc 8 32 2 (A_shared lay));
              EvMakeDesc (make_desc 8 16 0 (B_shared lay))],
             [EvArrive; EvMma (sparse_op1 lay metadata_array);
              EvMakeDesc (make_desc 8 32 2
                            (half_ptr_add (A_shared lay) (CInt.div Sparse.K_A 2)));
              EvMakeDesc (make_desc 8 8 0 (half_ptr_add (B_shared lay) (32 * Sparse.N)));
              EvArrive;
              EvLoadMetadata (Sparse.metadata_offset2 <$> all_tids);
              EvMma (sparse_op2 lay metadata_array);
              EvCommit; EvWait 0; EvFence; EvArrive], sev.
      split_and!; [exact Hev | reflexivity | intros; reflexivity | exact Hsev].
    + repeat constructor.
    + change (issued_mmas (sparse_events lay metadata_array))
        with [sparse_op1 lay metadata_array; sparse_op2 lay metadata_array].
      unfold sparse_acc. cbn [foldl]. reflexivity.
    + intros tid k Hv Hk.
      eapply scatter_inv_final; [apply sparse_acc_shape | exact Hinv | exact Hv | exact Hk].
Qed.

Lemma accumulator_discipline_witness :
  Dense.acc_regs = 4%nat /\ Sparse.acc_regs = 2%nat /\
  (exists s, Dense.main toy_hardware toy_layout (sequential_schedule Dense.acc_regs)
               (toy_matrix 128) (toy_matrix 4) (replicate 512 0) = Some s /\
             accumulator_protocol toy_hardware Dense.acc_regs s) /\
  (exists s, Sparse.main toy_hardware toy_layout (sequential_schedule Sparse.acc_regs)
               (toy_matrix 128) (toy_matrix 2) toy_metadata (replicate 256 0) = Some s /\
             accumulator_protocol toy_hardware Sparse.acc_regs s).
Proof.
  apply (accumulator_discipline toy_hardware toy_layout
           (toy_matrix 128) (toy_matrix 4) (toy_matrix 128) (toy_matrix 2)
           toy_metadata (replicate 512 0) (replicate 256 0));
    vm_compute; reflexivity.
Defined.

(** ** The two sparse instructions *)

(** C6: the sparse kernel issues exactly two sparse tensor-core
    instructions.  Each has the k32 shape, so together they cover the K
    extent of 64; in the compressed buffer, whose rows hold [K_A = 32]
    halves, each of them takes half a row.  They use four descriptors
    built one by one: the A descriptors on the bases [A_shared] and
    [A_shared + K_A / 2], the second sub-tile starting where the first
    ends, the B descriptors on [B_shared] and [B_shared + 32 * N].
    Their metadata comes from two loads whose offsets differ by [8 * 2]
    in every thread.  Both name the same two registers as accumulator
    with scale-D equal to 1, both are issued before the one commit of
    the kernel, and the registers end up holding the second
    instruction applied to the result of the first on zeroed
    registers. *)
Theorem sparse_two_mma_cover_K
    (hw : Hardware) (lay : SharedLayout) (h_A2 h_B metadata_array : list Z)
    (C : list Z) (sched : list Z) :
  Z.of_nat (length C) = Sparse.C_words ->
  Z.of_nat (length metadata_array) = Sparse.metadata_size ->
  complete_schedule Sparse.acc_regs sched = true ->
  exists s op1 op2 offs1 offs2,
    Sparse.main hw lay sched h_A2 h_B metadata_array C = Some s /\
    issued_mmas (events s) = [op1; op2] /\
    (* shape and K extent *)
    mma_sparse op1 = true /\ mma_sparse op2 = true /\
    mma_k op1 = 32 /\ mma_k op2 = 32 /\ mma_k op1 + mma_k op2 = Sparse.K /\
    mma_k op1 / 2 + mma_k op2 / 2 = Sparse.K_A /\
    (* four descriptors, two bases in each buffer *)
    built_descs (events s) =
      [mma_desc_a op1; mma_desc_b op1; mma_desc_a op2; mma_desc_b op2] /\
    desc_base (mma_desc_a op1) = A_shared lay /\
    desc_base (mma_desc_a op2) = half_ptr_add (A_shared lay) (Sparse.K_A / 2) /\
    desc_base (mma_desc_a op2) - desc_base (mma_desc_a op1) = mma_k op1 / 2 * sizeof_half /\
    desc_base (mma_desc_b op1) = B_shared lay /\
    desc_base (mma_desc_b op2) = half_ptr_add (B_shared lay) (32 * Sparse.N) /\
    (* two metadata loads *)
    metadata_loads (events s) = [offs1; offs2] /\
    offs1 = Sparse.metadata_offset1 <$> all_tids /\
    offs2 = (fun o => o + 8 * 2) <$> offs1 /\
    mma_metadata op1 = (fun o => default 0 (zlookup metadata_array o)) <$> offs1 /\
    mma_metadata op2 = (fun o => default 0 (zlookup metadata_array o)) <$> offs2 /\
    (* one accumulator, one commit *)
    mma_d op1 = [0; 1]%nat /\ mma_d op2 = mma_d op1 /\
    mma_scale_d op1 = 1 /\ mma_scale_d op2 = 1 /\
    single_commit_after [op1; op2] (events s) /\
    regs_c s =
      apply_mma hw (smem (copy_state s))
        (apply_mma hw (smem (copy_state s)) (zero_regs Sparse.acc_regs) op1) op2.
Proof.
  intros HC Hmeta Hsched.
  destruct (sparse_run hw lay sched h_A2 h_B metadata_array C HC Hmeta Hsched)
    as (s & Hrun & Hsh & Hinv).
  destruct (run_views _ _ _ _ _ _ _ _ Hinv) as (Hc & Hm & Hd & Hl & sev & Hev & Hsev).
  destruct (stores_only_views sev Hsev) as (Hsm & _ & _ & Hsc).
  exists s, (sparse_op1 lay metadata_array), (sparse_op2 lay metadata_array),
         (Sparse.metadata_offset1 <$> all_tids),
         ((fun o => o + 8 * 2) <$> (Sparse.metadata_offset1 <$> all_tids)).
  rewrite Hm, Hd, Hl, Hc, Hsh.
  split_and!; try reflexivity; try exact Hrun.
  - unfold sparse_op1, sparse_op2, Sparse.mma, make_desc, half_ptr_add, sizeof_half.
    cbn [desc_base mma_desc_a mma_k].
    change (CInt.div Sparse.K_A 2) with 16. change (32 / 2) with 16. lia.
  - exists [ EvLoadMetadata (Sparse.metadata_offset1 <$> all_tids);
             EvMakeDesc (make_desc 8 32 2 (A_shared lay));
             EvMakeDesc (make_desc 8 16 0 (B_shared lay));
             EvZeroAcc Sparse.acc_regs; EvArrive; EvMma (sparse_op1 lay metadata_array);
             EvMakeDesc (make_desc 8 32 2
                           (half_ptr_add (A_shared lay) (CInt.div Sparse.K_A 2)));
             EvMakeDesc (make_desc 8 8 0 (half_ptr_add (B_shared lay) (32 * Sparse.N)));
             EvArrive;
             EvLoadMetadata (Sparse.metadata_offset2 <$> all_tids);
             EvMma (sparse_op2 lay metadata_array) ],
           ([EvWait 0; EvFence; EvArrive] ++ sev).
    split_and!; try reflexivity.
    + rewrite Hev. reflexivity.
    + unfold issued_mmas in *. rewrite omap_app, Hsm. reflexivity.
    + rewrite List.filter_app, Hsc. reflexivity.
Qed.

Lemma sparse_two_mma_cover_K_witness :
  exists s op1 op2,
    Sparse.main toy_hardware toy_layout (reverse (sequential_schedule Sparse.acc_regs))
      (toy_matrix 128) (toy_matrix 2) toy_metadata (replicate 256 0) = Some s /\
    issued_mmas (events s) = [op1; op2] /\
    desc_base (mma_desc_a op1) = 0 /\ desc_base (mma_desc_a op2) = 32 /\
    single_commit_after [op1; op2] (events s).
Proof.
  destruct (sparse_two_mma_cover_K toy_hardware toy_layout
              (toy_matrix 128) (toy_matrix 2) toy_metadata (replicate 256 0)
              (reverse (sequential_schedule Sparse.acc_regs))
              ltac:(vm_compute; reflexivity) ltac:(vm_compute; reflexivity)
              ltac:(vm_compute; reflexivity))
    as (s & op1 & op2 & offs1 & offs2 & Hrun & Hops & _ & _ & _ & _ & _ & _ & _ &
        Ha1 & Ha2 & _ & _ & _ & _ & _ & _ & _ & _ & _ & _ & _ & _ & Hcommit & _).
  exists s, op1, op2. split_and!; try assumption.
Defined.

(** ** Alignment of descriptor bases *)

Lemma toy_layout_declared : layout_declared toy_layout.
Proof. unfold layout_declared. simpl. repeat split; reflexivity || lia. Qed.

(** The second A descriptor of the sparse kernel selects a swizzle mode
    on a base that is not 128-byte aligned: on a layout that satisfies
    the declared alignments, not every descriptor the kernel builds
    meets the alignment asked of its swizzle mode. *)
Lemma sparse_subtile_base_misaligned :
  layout_declared toy_layout /\
  exists s,
    Sparse.main toy_hardware toy_layout (sequential_schedule Sparse.acc_regs)
      (toy_matrix 128) (toy_matrix 2) toy_metadata (replicate 256 0) = Some s /\
    (desc_swizzle <$> built_descs (events s)) = [2; 0; 2; 0] /\
    (desc_base <$> built_descs (events s)) = [0; 4096; 32; 4608] /\
    forallb desc_aligned (built_descs (events s)) = false.
Proof.
  split; [exact toy_layout_declared|].
  eexists. split; [vm_compute; reflexivity|].
  split_and!; vm_compute; reflexivity.
Qed.

(** C8, as the code has it: on every layout that satisfies the declared
    alignments ([__align__(128)] for [A_shared], [__align__(16)] for
    [B_shared]) every base passed to a descriptor builder is 16-byte
    aligned.  The dense kernel builds two descriptors, both with mode
    3; the A base is [A_shared] and meets the 128 bytes that mode asks
    for.  The sparse kernel builds four: the first A descriptor (mode
    2, base [A_shared]) and both B descriptors (mode 0) meet what their
    mode asks for; the second A descriptor (mode 2) has the base
    [A_shared + K_A / 2], which lies 32 bytes past a 128-byte boundary
    and so is 32-byte but not 128-byte aligned. *)
Theorem descriptor_bases_alignment
    (hw : Hardware) (lay : SharedLayout)
    (h_A h_B h_A2 h_Bs metadata_array : list Z) (Cd Cs : list Z) (sd ss : list Z) :
  layout_declared lay ->
  Z.of_nat (length Cd) = Dense.C_words ->
  Z.of_nat (length Cs) = Sparse.C_words ->
  Z.of_nat (length metadata_array) = Sparse.metadata_size ->
  complete_schedule Dense.acc_regs sd = true ->
  complete_schedule Sparse.acc_regs ss = true ->
  (exists s dA dB,
      Dense.main hw lay sd h_A h_B Cd = Some s /\
      built_descs (events s) = [dA; dB] /\
      desc_swizzle dA = 3 /\ desc_base dA = A_shared lay /\ desc_aligned dA = true /\
      desc_swizzle dB = 3 /\ desc_base dB = B_shared lay /\ desc_base dB mod 16 = 0) /\
  (exists s dA1 dB1 dA2 dB2,
      Sparse.main hw lay ss h_A2 h_Bs metadata_array Cs = Some s /\
      built_descs (events s) = [dA1; dB1; dA2; dB2] /\
      desc_swizzle dA1 = 2 /\ desc_base dA1 = A_shared lay /\ desc_aligned dA1 = true /\
      desc_swizzle dB1 = 0 /\ desc_base dB1 = B_shared lay /\ desc_aligned dB1 = true /\
      desc_swizzle dB2 = 0 /\ desc_base dB2 = B_shared lay + 512 /\ desc_aligned dB2 = true /\
      desc_swizzle dA2 = 2 /\ desc_base dA2 = A_shared lay + 32 /\
      desc_base dA2 mod 128 = 32 /\ desc_base dA2 mod 32 = 0 /\ desc_base dA2 mod 16 = 0 /\
      desc_aligned dA2 = false).
Proof.
  intros (HA0 & HA & HB0 & HB) HCd HCs Hmeta Hsd Hss.
  unfold A_shared_align, B_shared_align in *.
  assert (Hmod : forall a k m d, a mod m = 0 -> m = d * (m / d) -> 0 < d -> 0 < m ->
                                 (a + k) mod d = k mod d).
  { intros a k m d Ha Hm Hd Hm0.
    apply Z.mod_divide in Ha; [|lia]. destruct Ha as [q ->].
    rewrite Hm. replace (q * (d * (m / d)) + k) with (k + (q * (m / d)) * d) by lia.
    apply Z.mod_add. lia. }
  split.
  - destruct (dense_run hw lay sd h_A h_B Cd HCd Hsd) as (s & Hrun & _ & Hinv).
    destruct (run_views _ _ _ _ _ _ _ _ Hinv) as (_ & _ & Hd & _).
    exists s, (make_desc_a 3 (A_shared lay)), (make_desc_b 3 (B_shared lay)).
    rewrite Hd. split_and!; try reflexivity; try exact Hrun.
    + unfold desc_aligned, make_desc_a. cbn [desc_base desc_swizzle].
      change (required_alignment 3) with 128. rewrite HA. reflexivity.
    + exact HB.
  - destruct (sparse_run hw lay ss h_A2 h_Bs metadata_array Cs HCs Hmeta Hss)
      as (s & Hrun & _ & Hinv).
    destruct (run_views _ _ _ _ _ _ _ _ Hinv) as (_ & _ & Hd & _).
    exists s, (make_desc 8 32 2 (A_shared lay)), (make_desc 8 16 0 (B_shared lay)),
           (make_desc 8 32 2 (half_ptr_add (A_shared lay) (CInt.div Sparse.K_A 2))),
           (make_desc 8 8 0 (half_ptr_add (B_shared lay) (32 * Sparse.N))).
    rewrite Hd.
    assert (E32 : half_ptr_add (A_shared lay) (CInt.div Sparse.K_A 2) = A_shared lay + 32)
      by reflexivity.
    assert (E512 : half_ptr_add (B_shared lay) (32 * Sparse.N) = B_shared lay + 512)
      by reflexivity.
    unfold make_desc, desc_aligned.
    cbn [desc_base desc_swizzle required_alignment].
    rewrite E32, E512.
    change (required_alignment 2) with 128. change (required_alignment 0) with 16.
    rewrite (Hmod (A_shared lay) 32 128 128 HA) by reflexivity.
    rewrite (Hmod (A_shared lay) 32 128 32 HA) by reflexivity.
    rewrite (Hmod (A_shared lay) 32 128 16 HA) by reflexivity.
    rewrite (Hmod (B_shared lay) 512 16 16 HB) by reflexivity.
    rewrite HA, HB.
    split_and!; try reflexivity; exact Hrun.
Qed.

Lemma descriptor_bases_alignment_witness :
  layout_declared toy_layout /\
  exists s dA1 dB1 dA2 dB2,
    Sparse.main toy_hardware toy_layout (sequential_schedule Sparse.acc_regs)
      (toy_matrix 128) (toy_matrix 2) toy_metadata (replicate 256 0) = Some s /\
    built_descs (events s) = [dA1; dB1; dA2; dB2] /\
    desc_aligned dA1 = true /\ desc_aligned dB1 = true /\ desc_aligned dB2 = true /\
    desc_base dA2 mod 128 = 32 /\ desc_aligned dA2 = false.
Proof.
  split; [exact toy_layout_declared|].
  destruct (descriptor_bases_alignment toy_hardware toy_layout
              (toy_matrix 128) (toy_matrix 4) (toy_matrix 128) (toy_matrix 2)
              toy_metadata (replicate 512 0) (replicate 256 0)
              (sequential_schedule Dense.acc_regs) (sequential_schedule Sparse.acc_regs)
              toy_layout_declared
              ltac:(vm_compute; reflexivity) ltac:(vm_compute; reflexivity)
              ltac:(vm_compute; reflexivity) ltac:(vm_compute; reflexivity)
              ltac:(vm_compute; reflexivity))
    as (_ & s & dA1 & dB1 & dA2 & dB2 & Hrun & Hd & _ & _ & H1 & _ & _ & H2 & _ & _ & H3 &
        _ & _ & H4 & _ & _ & H5).
  exists s, dA1, dB1, dA2, dB2. split_and!; assumption.
Defined.

(** ** The copy-only kernel *)

Lemma add_one_loop_exit fuel i s :
  AddOne.array_size <= i -> AddOne.thread_loop fuel i s = Some (tt, s).
Proof.
  intros Hi. destruct fuel; cbn [AddOne.thread_loop];
    destruct (Z.ltb_spec i AddOne.array_size); (lia || reflexivity).
Qed.

Lemma add_one_loop_step fuel i :
  i < AddOne.array_size ->
  AddOne.thread_loop (S fuel) i =
  ((if i <? AddOne.tile_size then AddOne.tile_add_one i else ret tt) >>>
   AddOne.thread_loop fuel (CInt.add i AddOne.blockDim))%exec.
Proof.
  intros Hi. cbn [AddOne.thread_loop].
  destruct (Z.ltb_spec i AddOne.array_size); [reflexivity | lia].
Qed.

(** A thread of the block runs the loop body once, at [i = threadIdx.x]. *)
Lemma add_one_thread_spec tid s :
  valid_tid tid -> Z.of_nat (length (AddOne.tile_shared s)) = AddOne.tile_size ->
  AddOne.thread_loop AddOne.loop_fuel tid s =
  Some (tt, AddOne.with_tile (add_one_step tid (AddOne.tile_shared s)) s).
Proof.
  unfold valid_tid. rewrite threads_per_block_eq. intros Hv Hlen.
  unfold add_one_step.
  change AddOne.loop_fuel with (S 127).
  rewrite add_one_loop_step by (unfold AddOne.array_size; lia).
  assert (Hnext : CInt.add tid AddOne.blockDim = tid + 128).
  { apply cint_add_small.
    unfold CInt.in_range, CInt.INT_MIN, CInt.INT_MAX, AddOne.blockDim. lia. }
  rewrite Hnext. unfold bind.
  destruct (Z.ltb_spec tid AddOne.tile_size) as [Hlt|Hge].
  - unfold AddOne.tile_add_one.
    destruct (zlookup_lt (AddOne.tile_shared s) tid) as [v Hv']; [lia|].
    rewrite Hv'. unfold mbind, option_bind. rewrite zstore_Some by lia.
    rewrite add_one_loop_exit by (unfold AddOne.array_size; lia).
    do 3 f_equal. apply list_eq. intros j.
    rewrite zlookup_nat in Hv' by lia.
    destruct (decide (Z.to_nat tid = j)) as [<-|Hne].
    + rewrite list_lookup_insert_eq by (apply lookup_lt_Some in Hv'; exact Hv').
      rewrite list_lookup_alter_eq, Hv'. reflexivity.
    + rewrite list_lookup_insert_ne, list_lookup_alter_ne by exact Hne. reflexivity.
  - cbn [ret]. rewrite add_one_loop_exit by (unfold AddOne.array_size; lia).
    destruct s; reflexivity.
Qed.

Lemma add_one_step_length tid tile : length (add_one_step tid tile) = length tile.
Proof. unfold add_one_step. destruct (tid <? _); [apply length_alter | reflexivity]. Qed.

(** Two threads touch different elements: their updates commute. *)
Lemma add_one_step_comm t1 t2 tile :
  add_one_step t1 (add_one_step t2 tile) = add_one_step t2 (add_one_step t1 tile).
Proof.
  unfold add_one_step.
  destruct (t1 <? AddOne.tile_size), (t2 <? AddOne.tile_size); try reflexivity.
  apply list_eq. intros j.
  destruct (decide (Z.to_nat t1 = Z.to_nat t2)) as [->|Hne]; [reflexivity|].
  destruct (decide (Z.to_nat t1 = j)) as [<-|H1].
  - rewrite list_lookup_alter_eq, !list_lookup_alter_ne, list_lookup_alter_eq by congruence.
    reflexivity.
  - rewrite (list_lookup_alter_ne _ _ (Z.to_nat t1)) by exact H1.
    destruct (decide (Z.to_nat t2 = j)) as [<-|H2].
    + rewrite !list_lookup_alter_eq, list_lookup_alter_ne by exact H1. reflexivity.
    + rewrite !list_lookup_alter_ne by assumption. reflexivity.
Qed.

Lemma add_one_run_foldl sched s :
  Forall valid_tid sched ->
  Z.of_nat (length (AddOne.tile_shared s)) = AddOne.tile_size ->
  for_each sched (fun tid => AddOne.thread_loop AddOne.loop_fuel tid) s =
  Some (tt, AddOne.with_tile
              (foldl (fun t tid => add_one_step tid t) (AddOne.tile_shared s) sched) s).
Proof.
  intros Hall. revert s. induction Hall as [|tid rest Hv _ IH]; intros s Hlen.
  - destruct s; reflexivity.
  - cbn [for_each foldl]. unfold bind. rewrite add_one_thread_spec by assumption.
    rewrite IH by (cbn [AddOne.with_tile AddOne.tile_shared];
                   rewrite add_one_step_length; exact Hlen).
    reflexivity.
Qed.

Lemma add_one_foldl_perm s1 s2 :
  Permutation s1 s2 ->
  forall tile, foldl (fun t tid => add_one_step tid t) tile s1 =
               foldl (fun t tid => add_one_step tid t) tile s2.
Proof.
  induction 1 as [|x l l' _ IH|x y l|l l' l'' _ IH1 _ IH2]; intros tile; simpl.
  - reflexivity.
  - apply IH.
  - rewrite add_one_step_comm. reflexivity.
  - rewrite IH1. apply IH2.
Qed.

(** The tile after step 4 does not depend on the order in which the
    threads reach their loop. *)
Lemma add_one_run_any_order sched s :
  Permutation sched all_tids ->
  Z.of_nat (length (AddOne.tile_shared s)) = AddOne.tile_size ->
  for_each sched (fun tid => AddOne.thread_loop AddOne.loop_fuel tid) s =
  for_each all_tids (fun tid => AddOne.thread_loop AddOne.loop_fuel tid) s.
Proof.
  intros Hperm Hlen.
  assert (Hall : Forall valid_tid all_tids)
    by (apply Forall_forall; intros t Ht; apply valid_tid_all_tids, Ht).
  rewrite !add_one_run_foldl; try assumption.
  - do 3 f_equal. apply add_one_foldl_perm, Hperm.
  - eapply Permutation_Forall; [symmetry; exact Hperm | exact Hall].
Qed.

(** The block after the load phase of [main]: the barrier has completed
    its phase and the tile holds elements 16 to 31 of the array. *)
Lemma add_one_load_phase :
  AddOne.load_phase (AddOne.create_1d_tensor_map AddOne.array_size AddOne.tile_size)
    AddOne.offset (AddOne.initial AddOne.h_data) =
  Some (tt, {| AddOne.blk_bar := Some {| bar_expected := 128; bar_arrived := 0;
                                         bar_tx := 0 |};
               AddOne.blk_bulk := [];
               AddOne.tile_shared := Z.of_nat <$> seq 16 16;
               AddOne.d_data := AddOne.h_data |}).
Proof. vm_compute. reflexivity. Qed.

Lemma h_data_lookup i :
  0 <= i < AddOne.array_size -> zlookup AddOne.h_data i = Some i.
Proof.
  unfold AddOne.array_size. intros Hi. rewrite zlookup_nat by lia.
  unfold AddOne.h_data. rewrite list_lookup_fmap.
  rewrite lookup_seq_lt by (change (Z.to_nat AddOne.array_size) with 128%nat; lia).
  simpl. f_equal. lia.
Qed.

(** C5: in the copy-only scenario the array starts with [h_data[i] = i]
    for its 128 elements; whatever the order in which the 128 threads
    reach their update, the kernel launched at coordinate 16 returns,
    the array keeps its length, every element with index in [16, 32)
    ends one larger than it started and every other element is
    unchanged. *)
Theorem add_one_changes_exactly_second_tile sched :
  Permutation sched all_tids ->
  exists out,
    AddOne.main sched = Some out /\
    Z.of_nat (length out) = AddOne.array_size /\
    forall i, 0 <= i < AddOne.array_size ->
      zlookup AddOne.h_data i = Some i /\
      zlookup out i = Some (if (16 <=? i) && (i <? 32) then i + 1 else i).
Proof.
  intros Hperm. exists add_one_expected. split; [|split].
  - unfold AddOne.main, AddOne.add_one_kernel.
    unfold bind at 1. rewrite add_one_load_phase.
    unfold bind at 1. rewrite (add_one_run_any_order sched) by (exact Hperm || reflexivity).
    vm_compute. reflexivity.
  - reflexivity.
  - intros i Hi. pose proof (h_data_lookup i Hi) as Hd. split; [exact Hd|].
    unfold AddOne.array_size in Hi.
    rewrite zlookup_nat in * by lia. unfold add_one_expected.
    rewrite list_lookup_fmap, Hd. reflexivity.
Qed.

Lemma add_one_changes_exactly_second_tile_witness :
  exists out,
    AddOne.main (reverse all_tids) = Some out /\
    zlookup out 15 = Some 15 /\ zlookup out 16 = Some 17 /\
    zlookup out 31 = Some 32 /\ zlookup out 32 = Some 32.
Proof.
  destruct (add_one_changes_exactly_second_tile (reverse all_tids)
              (reverse_Permutation all_tids))
    as (out & Hrun & _ & Hout).
  exists out. split; [exact Hrun|].
  split_and!; [ apply (Hout 15) | apply (Hout 16) | apply (Hout 31) | apply (Hout 32) ];
    unfold AddOne.array_size; lia.
Defined.

(** ** Thread coordinates, metadata words and output rows *)

(** X1: the coordinate lines of the two compute kernels split a thread id
    of the block into warp, lane, lane group and lane in group, and
    every triple of a warp, a lane group and a lane in it is the
    coordinates of exactly one thread. *)
Theorem thread_coordinates_bijection :
  (forall tid, valid_tid tid ->
     0 <= warp_id tid < 4 /\ 0 <= lane_id tid < 32 /\
     0 <= group_id tid < 8 /\ 0 <= lane_in_group tid < 4 /\
     lane_id tid = 4 * group_id tid + lane_in_group tid /\
     tid = 32 * warp_id tid + lane_id tid) /\
  (forall w g l, 0 <= w < 4 -> 0 <= g < 8 -> 0 <= l < 4 ->
     exists tid, valid_tid tid /\
       warp_id tid = w /\ group_id tid = g /\ lane_in_group tid = l /\
       forall tid', valid_tid tid' ->
         warp_id tid' = w -> group_id tid' = g -> lane_in_group tid' = l -> tid' = tid).
Proof.
  split.
  - intros tid Hv. destruct (tid_decompose tid Hv) as (Hw & Hg & Hl & Heq).
    assert (Hlane : lane_id tid = 4 * group_id tid + lane_in_group tid).
    { unfold lane_in_group, group_id. rewrite cint_band_3, cint_shr_2.
      pose proof (Z.div_mod (lane_id tid) 4 ltac:(lia)). lia. }
    split_and!; lia.
  - intros w g l Hw Hg Hl.
    destruct (coords_compose w g l Hw Hg Hl) as (Hv & Hw' & Hg' & Hl').
    exists (32 * w + 4 * g + l). split_and!; try assumption.
    intros tid' Hv' <- <- <-.
    destruct (tid_decompose tid' Hv') as (_ & _ & _ & Heq). exact Heq.
Qed.

(** The metadata offsets of a thread in terms of its coordinates. *)
Lemma metadata_offset1_form tid :
  valid_tid tid ->
  exists w g l, 0 <= w < 4 /\ 0 <= g < 8 /\ 0 <= l < 4 /\
    tid = 32 * w + 4 * g + l /\
    Sparse.metadata_offset1 tid = 32 * w + 8 * (l mod 2) + g.
Proof.
  intros Hv. destruct (tid_decompose tid Hv) as (Hw & Hg & Hl & Heq).
  exists (warp_id tid), (group_id tid), (lane_in_group tid).
  split_and!; try lia.
  unfold Sparse.metadata_offset1, lane_in_work_group.
  rewrite cint_rem_nonneg by lia. lia.
Qed.

(** X2: in every warp the first load of the sparse kernel reads the first
    16 of the warp's 32 metadata words and the second load the last
    16, and the 128 threads together read every word of the buffer
    [main] allocates: [metadata_size] words are exactly what the kernel
    consumes. *)
Theorem metadata_loads_cover_buffer :
  (forall tid, valid_tid tid ->
     Sparse.metadata_offset1 tid / 32 = warp_id tid /\
     Sparse.metadata_offset2 tid / 32 = warp_id tid /\
     Sparse.metadata_offset1 tid mod 32 < 16 <= Sparse.metadata_offset2 tid mod 32) /\
  (forall o, 0 <= o < Sparse.metadata_size ->
     exists tid, valid_tid tid /\
       (Sparse.metadata_offset1 tid = o \/ Sparse.metadata_offset2 tid = o)).
Proof.
  split.
  - intros tid Hv. rewrite metadata_offset2_shift.
    destruct (metadata_offset1_form tid Hv) as (w & g & l & Hw & Hg & Hl & Heq & ->).
    destruct (coords_compose w g l Hw Hg Hl) as (_ & Hw' & _). rewrite Heq, Hw'.
    pose proof (Z.mod_pos_bound l 2 ltac:(lia)).
    Z.div_mod_to_equations. lia.
  - intros o Ho. rewrite metadata_size_eq in Ho.
    set (w := o / 32). set (r := o mod 32).
    set (p := (r mod 16) / 8). set (g := r mod 8).
    assert (Hw : 0 <= w < 4) by (subst w; Z.div_mod_to_equations; lia).
    assert (Hg : 0 <= g < 8) by (subst g; Z.div_mod_to_equations; lia).
    assert (Hp : 0 <= p < 2) by (subst p r; Z.div_mod_to_equations; lia).
    destruct (coords_compose w g p Hw Hg ltac:(lia)) as (Hv & Hw' & Hg' & Hl').
    exists (32 * w + 4 * g + p). split; [exact Hv|].
    rewrite metadata_offset2_shift.
    unfold Sparse.metadata_offset1, lane_in_work_group.
    rewrite Hw', Hg', Hl', cint_rem_nonneg by lia.
    rewrite (Z.mod_small p 2) by lia.
    subst w g p r. Z.div_mod_to_equations. lia.
Qed.

(** X3: each metadata word that a load of the sparse kernel reads is read
    by exactly two threads: a thread and the thread two lanes from it
    in its lane group ([lane_in_work_group] is [lane_in_group % 2]). *)
Theorem metadata_word_shared_by_two tid tid' :
  valid_tid tid -> valid_tid tid' ->
  valid_tid (metadata_partner tid) /\ metadata_partner tid <> tid /\
  (Sparse.metadata_offset1 tid' = Sparse.metadata_offset1 tid <->
   tid' = tid \/ tid' = metadata_partner tid) /\
  (Sparse.metadata_offset2 tid' = Sparse.metadata_offset2 tid <->
   tid' = tid \/ tid' = metadata_partner tid).
Proof.
  intros Hv Hv'. rewrite !metadata_offset2_shift.
  destruct (metadata_offset1_form tid Hv) as (w & g & l & Hw & Hg & Hl & Heq & Ho).
  destruct (metadata_offset1_form tid' Hv') as (w' & g' & l' & Hw' & Hg' & Hl' & Heq' & Ho').
  destruct (coords_compose w g l Hw Hg Hl) as (_ & _ & _ & Hlig).
  rewrite <- Heq in Hlig. unfold metadata_partner. rewrite Hlig.
  rewrite Ho, Ho'. unfold valid_tid. rewrite threads_per_block_eq.
  assert (Hl2 : l mod 2 = if l <? 2 then l else l - 2)
    by (destruct (Z.ltb_spec l 2); cbv beta iota; Z.div_mod_to_equations; lia).
  assert (Hl2' : l' mod 2 = if l' <? 2 then l' else l' - 2)
    by (destruct (Z.ltb_spec l' 2); cbv beta iota; Z.div_mod_to_equations; lia).
  rewrite Hl2, Hl2'.
  destruct (Z.ltb_spec l 2), (Z.ltb_spec l' 2); cbv beta iota; split_and!; lia.
Qed.

Lemma metadata_word_shared_by_two_witness :
  valid_tid 5 /\ valid_tid 7 /\ metadata_partner 5 = 7 /\
  Sparse.metadata_offset1 7 = Sparse.metadata_offset1 5.
Proof.
  assert (H5 : valid_tid 5) by (unfold valid_tid; rewrite threads_per_block_eq; lia).
  assert (H7 : valid_tid 7) by (unfold valid_tid; rewrite threads_per_block_eq; lia).
  destruct (metadata_word_shared_by_two 5 7 H5 H7) as (_ & _ & [_ Hshare] & _).
  split_and!; [exact H5 | exact H7 | reflexivity | apply Hshare; right; reflexivity].
Defined.

(** X4: the output [C] is a row-major [M] by [N] matrix of halves, two to a
    word.  Register [c[slot]] of a thread lands in row
    [16 * warp_id + group_id], or eight rows below for an odd slot of
    the dense kernel and for slot 1 of the sparse kernel; within the
    row it is word [lane_in_group], or four words further for slots 2
    and 3 of the dense kernel. *)
Theorem scatter_rows_and_columns tid :
  valid_tid tid ->
  (forall slot, (slot < Dense.acc_regs)%nat ->
     Dense.scatter tid slot / (Dense.N / 2) =
       16 * warp_id tid + group_id tid + 8 * (Z.of_nat slot mod 2) /\
     Dense.scatter tid slot mod (Dense.N / 2) =
       lane_in_group tid + 4 * (Z.of_nat slot / 2)) /\
  (forall slot, (slot < Sparse.acc_regs)%nat ->
     Sparse.scatter tid slot / (Sparse.N / 2) =
       16 * warp_id tid + group_id tid + 8 * Z.of_nat slot /\
     Sparse.scatter tid slot mod (Sparse.N / 2) = lane_in_group tid).
Proof.
  intros Hv. destruct (tid_decompose tid Hv) as (Hw & Hg & Hl & _).
  change (Dense.N / 2) with 8. change (Sparse.N / 2) with 4.
  split; intros slot Hslot.
  - unfold Dense.acc_regs in Hslot.
    destruct slot as [|[|[|[|?]]]]; try lia;
      unfold Dense.scatter, Dense.offset1, Dense.offset2;
      generalize (warp_id tid) (group_id tid) (lane_in_group tid) Hw Hg Hl;
      intros w g l ? ? ?; eval_to_nat; simpl Z.of_nat;
      Z.div_mod_to_equations; lia.
  - unfold Sparse.acc_regs in Hslot.
    destruct slot as [|[|?]]; try lia;
      unfold Sparse.scatter, Sparse.offset1, Sparse.offset2;
      generalize (warp_id tid) (group_id tid) (lane_in_group tid) Hw Hg Hl;
      intros w g l ? ? ?; simpl Z.of_nat;
      Z.div_mod_to_equations; lia.
Qed.

Lemma scatter_rows_and_columns_witness :
  Dense.scatter 127 3 / (Dense.N / 2) = 63 /\
  Dense.scatter 127 3 mod (Dense.N / 2) = 7 /\
  Sparse.scatter 127 1 / (Sparse.N / 2) = 63 /\
  Sparse.scatter 127 1 mod (Sparse.N / 2) = 3.
Proof.
  assert (Hv : valid_tid 127) by (unfold valid_tid; rewrite threads_per_block_eq; lia).
  destruct (scatter_rows_and_columns 127 Hv) as [Hd Hs].
  destruct (Hd 3%nat ltac:(unfold Dense.acc_regs; lia)) as [Hd1 Hd2].
  destruct (Hs 1%nat ltac:(unfold Sparse.acc_regs; lia)) as [Hs1 Hs2].
  rewrite Hd1, Hd2, Hs1, Hs2. split_and!; reflexivity.
Defined.

(** ** What the compute kernels leave in the output *)

Lemma reg_apply_mma hw sh n c op tid k :
  acc_shape n c -> valid_tid tid -> (k < n)%nat ->
  reg (apply_mma hw sh c op) tid k = tensor_core hw sh op c (Z.to_nat tid) k.
Proof.
  intros [Hrows Hcols] Hv Hk. unfold valid_tid in Hv. unfold reg, apply_mma.
  rewrite zlookup_nat by lia. rewrite list_lookup_imap.
  destruct (lookup_lt_is_Some_2 c (Z.to_nat tid) ltac:(lia)) as [row Hrow].
  rewrite Hrow. cbn [fmap option_fmap option_map mbind option_bind].
  rewrite list_lookup_imap.
  assert (Hlen : length row = n)
    by (eapply (proj1 (Forall_forall _ _) Hcols), list_elem_of_lookup_2, Hrow).
  destruct (lookup_lt_is_Some_2 row k ltac:(lia)) as [v Hv'].
  rewrite Hv'. reflexivity.
Qed.

(** X5: after a complete run of the dense kernel every word of the output
    holds what the tensor core left in one accumulator register: word
    [scatter tid slot] holds register [slot] of thread [tid] after the
    one instruction, issued on zeroed registers and on the two tiles
    the copy engine delivered.  Nothing of what the buffer held before
    the launch is left. *)
Theorem dense_output_is_scattered_accumulator
    (hw : Hardware) (lay : SharedLayout) (h_A h_B C sched : list Z) :
  Z.of_nat (length C) = Dense.C_words ->
  complete_schedule Dense.acc_regs sched = true ->
  exists s,
    Dense.main hw lay sched h_A h_B C = Some s /\
    Z.of_nat (length (gmem_C s)) = Dense.C_words /\
    (forall tid slot, valid_tid tid -> (slot < Dense.acc_regs)%nat ->
       zlookup (gmem_C s) (Dense.scatter tid slot) =
       Some (tensor_core hw (dense_smem hw h_A h_B) (dense_op lay)
               (zero_regs Dense.acc_regs) (Z.to_nat tid) slot)) /\
    (forall o, 0 <= o < Dense.C_words ->
       exists tid slot, valid_tid tid /\ (slot < Dense.acc_regs)%nat /\
         Dense.scatter tid slot = o /\
         zlookup (gmem_C s) o =
         Some (tensor_core hw (dense_smem hw h_A h_B) (dense_op lay)
                 (zero_regs Dense.acc_regs) (Z.to_nat tid) slot)).
Proof.
  intros HC Hsched.
  destruct (dense_run hw lay sched h_A h_B C HC Hsched) as (s & Hrun & _ & Hinv).
  assert (Hreg : forall tid slot, valid_tid tid -> (slot < Dense.acc_regs)%nat ->
            zlookup (gmem_C s) (Dense.scatter tid slot) =
            Some (tensor_core hw (dense_smem hw h_A h_B) (dense_op lay)
                    (zero_regs Dense.acc_regs) (Z.to_nat tid) slot)).
  { intros tid slot Hv Hk.
    destruct (dense_acc_shape hw lay h_A h_B) as [Hrows Hcols].
    destruct (scatter_inv_final _ _ _ _ Hrows _ _ _ Hinv
                tid slot Hv Hk) as [-> _].
    unfold dense_acc. erewrite reg_apply_mma; eauto using zero_regs_shape. }
  exists s. split_and!; [exact Hrun | apply Hinv | exact Hreg |].
  intros o Ho. destruct (dense_scatter_surj o Ho) as (tid & slot & Hv & Hk & <-).
  exists tid, slot. split_and!; auto.
Qed.

Lemma dense_output_is_scattered_accumulator_witness :
  exists s,
    Dense.main toy_hardware toy_layout (reverse (sequential_schedule Dense.acc_regs))
      (toy_matrix 128) (toy_matrix 4) (replicate 512 (-1)) = Some s /\
    zlookup (gmem_C s) (Dense.scatter 33 2) = Some (34 * 3).
Proof.
  destruct (dense_output_is_scattered_accumulator toy_hardware toy_layout
              (toy_matrix 128) (toy_matrix 4) (replicate 512 (-1))
              (reverse (sequential_schedule Dense.acc_regs))
              ltac:(vm_compute; reflexivity) ltac:(vm_compute; reflexivity))
    as (s & Hrun & _ & Hreg & _).
  exists s. split; [exact Hrun|].
  assert (Hv : valid_tid 33) by (unfold valid_tid; rewrite threads_per_block_eq; lia).
  assert (Hk : (2 < Dense.acc_regs)%nat) by (unfold Dense.acc_regs; lia).
  pose proof (Hreg 33 2%nat Hv Hk) as H.
  etransitivity; [exact H|].
  vm_compute. reflexivity.
Defined.

(** X6: after a complete run of the sparse kernel every word of the
    output holds what the tensor core left in one accumulator
    register: word [scatter tid slot] holds register [slot] of thread
    [tid] after the second instruction, which accumulates into what
    the first left on zeroed registers, both on the two tiles the copy
    engine delivered.  Nothing of what the buffer held before the
    launch is left. *)
Theorem sparse_output_is_scattered_accumulator
    (hw : Hardware) (lay : SharedLayout) (h_A2 h_B metadata_array C sched : list Z) :
  Z.of_nat (length C) = Sparse.C_words ->
  Z.of_nat (length metadata_array) = Sparse.metadata_size ->
  complete_schedule Sparse.acc_regs sched = true ->
  exists s,
    Sparse.main hw lay sched h_A2 h_B metadata_array C = Some s /\
    Z.of_nat (length (gmem_C s)) = Sparse.C_words /\
    (forall tid slot, valid_tid tid -> (slot < Sparse.acc_regs)%nat ->
       zlookup (gmem_C s) (Sparse.scatter tid slot) =
       Some (tensor_core hw (sparse_smem hw h_A2 h_B) (sparse_op2 lay metadata_array)
               (apply_mma hw (sparse_smem hw h_A2 h_B) (zero_regs Sparse.acc_regs)
                  (sparse_op1 lay metadata_array))
               (Z.to_nat tid) slot)) /\
    (forall o, 0 <= o < Sparse.C_words ->
       exists tid slot, valid_tid tid /\ (slot < Sparse.acc_regs)%nat /\
         Sparse.scatter tid slot = o /\
         zlookup (gmem_C s) o =
         Some (tensor_core hw (sparse_smem hw h_A2 h_B) (sparse_op2 lay metadata_array)
                 (apply_mma hw (sparse_smem hw h_A2 h_B) (zero_regs Sparse.acc_regs)
                    (sparse_op1 lay metadata_array))
                 (Z.to_nat tid) slot)).
Proof.
  intros HC Hmeta Hsched.
  destruct (sparse_run hw lay sched h_A2 h_B metadata_array C HC Hmeta Hsched)
    as (s & Hrun & _ & Hinv).
  assert (Hreg : forall tid slot, valid_tid tid -> (slot < Sparse.acc_regs)%nat ->
            zlookup (gmem_C s) (Sparse.scatter tid slot) =
            Some (tensor_core hw (sparse_smem hw h_A2 h_B) (sparse_op2 lay metadata_array)
                    (apply_mma hw (sparse_smem hw h_A2 h_B) (zero_regs Sparse.acc_regs)
                       (sparse_op1 lay metadata_array))
                    (Z.to_nat tid) slot)).
  { intros tid slot Hv Hk.
    destruct (sparse_acc_shape hw lay h_A2 h_B metadata_array) as [Hrows Hcols].
    destruct (scatter_inv_final _ _ _ _ Hrows _ _ _ Hinv
                tid slot Hv Hk) as [-> _].
    unfold sparse_acc. cbv zeta.
    erewrite reg_apply_mma; eauto using zero_regs_shape, apply_mma_shape. }
  exists s. split_and!; [exact Hrun | apply Hinv | exact Hreg |].
  intros o Ho. destruct (sparse_scatter_surj o Ho) as (tid & slot & Hv & Hk & <-).
  exists tid, slot. split_and!; auto.
Qed.

Lemma sparse_output_is_scattered_accumulator_witness :
  exists s,
    Sparse.main toy_hardware toy_layout (sequential_schedule Sparse.acc_regs)
      (toy_matrix 128) (toy_matrix 2) toy_metadata (replicate 256 (-1)) = Some s /\
    exists v, zlookup (gmem_C s) 255 = Some v.
Proof.
  destruct (sparse_output_is_scattered_accumulator toy_hardware toy_layout
              (toy_matrix 128) (toy_matrix 2) toy_metadata (replicate 256 (-1))
              (sequential_schedule Sparse.acc_regs)
              ltac:(vm_compute; reflexivity) ltac:(vm_compute; reflexivity)
              ltac:(vm_compute; reflexivity))
    as (s & Hrun & _ & _ & Hword).
  exists s. split; [exact Hrun|].
  destruct (Hword 255 ltac:(change Sparse.C_words with 256; lia))
    as (tid & slot & _ & _ & _ & Hv).
  eexists. exact Hv.
Defined.

(** ** The fence and commit protocol, and the metadata buffer *)

Lemma protocol_run_app st evs evs' :
  protocol_run st (evs ++ evs') =
  match protocol_run st evs with
  | Some st' => protocol_run st' evs'
  | None => None
  end.
Proof.
  revert st. induction evs as [|e evs IH]; intros st; [reflexivity|].
  cbn [app protocol_run]. destruct (protocol_step st e); [apply IH | reflexivity].
Qed.

Lemma protocol_run_stores st sev :
  Forall is_store sev -> open_ops st = 0%nat -> pending st = 0%nat ->
  protocol_run st sev = Some st.
Proof.
  induction 1 as [|e sev (t & k & o & ->) _ IH]; intros Hopen Hpend; [reflexivity|].
  cbn [protocol_run protocol_step]. rewrite Hopen, Hpend. cbn [Nat.eqb andb].
  apply IH; assumption.
Qed.

(** X7: the log of every complete run of the two compute kernels passes the
    protocol check: every tensor-core instruction comes after a
    [warpgroup_arrive], the instructions are committed, the commit is
    waited for with [warpgroup_wait<0>], and the accumulator is zeroed
    and stored from only while no instruction is outstanding.  At the
    end nothing is issued or committed and not waited for. *)
Theorem kernels_follow_commit_protocol
    (hw : Hardware) (lay : SharedLayout)
    (h_A h_B h_A2 h_Bs metadata_array : list Z) (Cd Cs : list Z) (sd ss : list Z) :
  Z.of_nat (length Cd) = Dense.C_words ->
  Z.of_nat (length Cs) = Sparse.C_words ->
  Z.of_nat (length metadata_array) = Sparse.metadata_size ->
  complete_schedule Dense.acc_regs sd = true ->
  complete_schedule Sparse.acc_regs ss = true ->
  (exists s, Dense.main hw lay sd h_A h_B Cd = Some s /\
             in_flight s = [] /\ committed s = [] /\
             protocol_run protocol_start (events s) =
               Some {| armed := true; open_ops := 0; pending := 0 |}) /\
  (exists s, Sparse.main hw lay ss h_A2 h_Bs metadata_array Cs = Some s /\
             in_flight s = [] /\ committed s = [] /\
             protocol_run protocol_start (events s) =
               Some {| armed := true; open_ops := 0; pending := 0 |}).
Proof.
  intros HCd HCs Hmeta Hsd Hss. split.
  - destruct (dense_run hw lay sd h_A h_B Cd HCd Hsd) as (s & Hrun & _ & Hinv).
    exists s. split; [exact Hrun|].
    destruct Hinv as (_ & Hfl & Hcm & _ & _ & _ & (sev & Hev & Hsev) & _).
    split_and!; [exact Hfl | exact Hcm |].
    rewrite Hev, protocol_run_app.
    change (protocol_run protocol_start (dense_events lay))
      with (Some {| armed := true; open_ops := 0; pending := 0 |}).
    apply protocol_run_stores; [exact Hsev | reflexivity | reflexivity].
  - destruct (sparse_run hw lay ss h_A2 h_Bs metadata_array Cs HCs Hmeta Hss)
      as (s & Hrun & _ & Hinv).
    exists s. split; [exact Hrun|].
    destruct Hinv as (_ & Hfl & Hcm & _ & _ & _ & (sev & Hev & Hsev) & _).
    split_and!; [exact Hfl | exact Hcm |].
    rewrite Hev, protocol_run_app.
    change (protocol_run protocol_start (sparse_events lay metadata_array))
      with (Some {| armed := true; open_ops := 0; pending := 0 |}).
    apply protocol_run_stores; [exact Hsev | reflexivity | reflexivity].
Qed.

Lemma kernels_follow_commit_protocol_witness :
  (exists s, Dense.main toy_hardware toy_layout (sequential_schedule Dense.acc_regs)
               (toy_matrix 128) (toy_matrix 4) (replicate 512 0) = Some s /\
             protocol_run protocol_start (events s) =
               Some {| armed := true; open_ops := 0; pending := 0 |}) /\
  (exists s, Sparse.main toy_hardware toy_layout (sequential_schedule Sparse.acc_regs)
               (toy_matrix 128) (toy_matrix 2) toy_metadata (replicate 256 0) = Some s /\
             protocol_run protocol_start (events s) =
               Some {| armed := true; open_ops := 0; pending := 0 |}).
Proof.
  destruct (kernels_follow_commit_protocol toy_hardware toy_layout
              (toy_matrix 128) (toy_matrix 4) (toy_matrix 128) (toy_matrix 2)
              toy_metadata (replicate 512 0) (replicate 256 0)
              (sequential_schedule Dense.acc_regs) (sequential_schedule Sparse.acc_regs)
              ltac:(vm_compute; reflexivity) ltac:(vm_compute; reflexivity)
              ltac:(vm_compute; reflexivity) ltac:(vm_compute; reflexivity)
              ltac:(vm_compute; reflexivity))
    as [(sd & Hd & _ & _ & Hpd) (ss & Hs & _ & _ & Hps)].
  split; [exists sd | exists ss]; split; assumption.
Defined.






(** ** The copy kernels on any data *)

(** Threads that each update the element of a buffer that carries their
    own id, those that [p] selects, in any order and each at most
    once. *)
Lemma foldl_alter_lookup (f : Z -> Z) (p : Z -> bool) (js : list Z) (l : list Z) (i : nat) :
  NoDup js -> Forall (fun j => 0 <= j) js ->
  foldl (fun t j => if p j then alter f (Z.to_nat j) t else t) l js !! i =
  if bool_decide (Z.of_nat i ∈ js) && p (Z.of_nat i) then f <$> l !! i else l !! i.
Proof.
  intros Hnd Hpos. revert l.
  induction js as [|a js IH]; intros l.
  - cbn [foldl]. rewrite bool_decide_eq_false_2 by apply not_elem_of_nil. reflexivity.
  - apply NoDup_cons in Hnd as [Ha Hnd]. apply Forall_cons in Hpos as [Ha0 Hpos].
    cbn [foldl]. rewrite IH by assumption.
    destruct (decide (a = Z.of_nat i)) as [->|Hne].
    + rewrite (bool_decide_eq_false_2 _ Ha).
      rewrite bool_decide_eq_true_2 by (apply elem_of_cons; left; reflexivity).
      cbn [andb]. destruct (p (Z.of_nat i)); [|reflexivity].
      rewrite Nat2Z.id, list_lookup_alter_eq. reflexivity.
    + assert (Hnat : Z.to_nat a <> i) by lia.
      assert (Hl : (if p a then alter f (Z.to_nat a) l else l) !! i = l !! i)
        by (destruct (p a); [apply list_lookup_alter_ne; exact Hnat | reflexivity]).
      rewrite Hl.
      rewrite (bool_decide_ext (Z.of_nat i ∈ a :: js) (Z.of_nat i ∈ js)); [reflexivity|].
      rewrite elem_of_cons. split; [intros [?|?]; [congruence | assumption] | auto].
Qed.

Lemma all_tids_NoDup : NoDup all_tids.
Proof.
  unfold all_tids. apply (NoDup_fmap_2 Z.of_nat), NoDup_seq.
Qed.

(** What a schedule that runs every thread once looks like. *)
Lemma schedule_once sched :
  Permutation sched all_tids ->
  NoDup sched /\ Forall (fun j => 0 <= j) sched /\ Forall valid_tid sched /\
  forall tid, tid ∈ sched <-> valid_tid tid.
Proof.
  intros Hperm.
  assert (Hmem : forall tid, tid ∈ sched <-> valid_tid tid)
    by (intros tid; rewrite valid_tid_all_tids; rewrite Hperm; reflexivity).
  split_and!; [| | |exact Hmem].
  - rewrite Hperm. apply all_tids_NoDup.
  - apply Forall_forall. intros j Hj. apply Hmem in Hj. unfold valid_tid in Hj. lia.
  - apply Forall_forall. intros j Hj. apply Hmem, Hj.
Qed.

(** When every thread of the block has run once, every element of a
    buffer of at most 128 elements that [p] selects has been updated
    once. *)
Lemma foldl_alter_all (f : Z -> Z) (p : Z -> bool) sched (l : list Z) :
  Permutation sched all_tids ->
  Z.of_nat (length l) <= threads_per_block ->
  foldl (fun t j => if p j then alter f (Z.to_nat j) t else t) l sched =
  imap (fun i v => if p (Z.of_nat i) then f v else v) l.
Proof.
  intros Hperm Hlen. destruct (schedule_once sched Hperm) as (Hnd & Hpos & _ & Hmem).
  apply list_eq. intros i.
  rewrite foldl_alter_lookup by assumption. rewrite list_lookup_imap.
  destruct (l !! i) as [v|] eqn:E; cbn [fmap option_fmap option_map].
  - apply lookup_lt_Some in E.
    rewrite bool_decide_eq_true_2 by (apply Hmem; unfold valid_tid; lia).
    cbn [andb]. destruct (p (Z.of_nat i)); reflexivity.
  - destruct (_ && _); reflexivity.
Qed.

Lemma add_one_load_tile_lookup data t (j : nat) :
  Z.of_nat (length data) = AddOne.array_size ->
  0 <= t < AddOne.array_size / AddOne.tile_size -> (j < 16)%nat ->
  AddOne.load_tile (AddOne.create_1d_tensor_map AddOne.array_size AddOne.tile_size)
    data (AddOne.tile_size * t) !! j =
  data !! (Z.to_nat (AddOne.tile_size * t) + j)%nat.
Proof.
  unfold AddOne.array_size, AddOne.tile_size. change (128 / 16) with 8.
  intros Hlen Ht Hj. unfold AddOne.load_tile.
  cbn [AddOne.tm_box AddOne.tm_len AddOne.create_1d_tensor_map].
  rewrite list_lookup_fmap, lookup_seq_lt by (change (Z.to_nat 16) with 16%nat; lia).
  cbn [fmap option_fmap option_map Nat.add].
  destruct (Z.ltb_spec (16 * t + Z.of_nat j) 128); [|lia].
  rewrite zlookup_nat by lia.
  replace (Z.to_nat (16 * t + Z.of_nat j)) with (Z.to_nat (16 * t) + j)%nat by lia.
  destruct (lookup_lt_is_Some_2 data (Z.to_nat (16 * t) + j)%nat ltac:(lia)) as [v ->].
  reflexivity.
Qed.

Lemma add_one_load_tile_length tm data coordinate :
  length (AddOne.load_tile tm data coordinate) = Z.to_nat (AddOne.tm_box tm).
Proof. unfold AddOne.load_tile. rewrite length_fmap, length_seq. reflexivity. Qed.

(** A tile that lies inside the array replaces the elements it covers. *)
Lemma add_one_store_tile_spec tm tile : forall gmem coordinate,
  Z.of_nat (length gmem) = AddOne.tm_len tm ->
  0 <= coordinate -> coordinate + Z.of_nat (length tile) <= AddOne.tm_len tm ->
  length (AddOne.store_tile tm gmem coordinate tile) = length gmem /\
  forall i : nat,
    AddOne.store_tile tm gmem coordinate tile !! i =
    if (coordinate <=? Z.of_nat i) && (Z.of_nat i <? coordinate + Z.of_nat (length tile))
    then tile !! (i - Z.to_nat coordinate)%nat
    else gmem !! i.
Proof.
  induction tile as [|v tile IH]; intros gmem coordinate Hlen H0 Hfit.
  - cbn [AddOne.store_tile length]. split; [reflexivity|]. intros i.
    case_cmp; cbn [andb]; try reflexivity; lia.
  - cbn [length] in Hfit. cbn [AddOne.store_tile].
    destruct (Z.ltb_spec coordinate (AddOne.tm_len tm)); [|lia].
    rewrite zstore_Some by lia. cbn [default from_option id]. cbv zeta. unfold id.
    destruct (IH (<[Z.to_nat coordinate := v]> gmem) (coordinate + 1)) as [IHlen IHi];
      [rewrite length_insert; exact Hlen | lia | lia |].
    split; [rewrite IHlen; apply length_insert|].
    intros i. rewrite IHi. cbn [length].
    case_cmp; cbn [andb]; try lia;
      first [ replace (i - Z.to_nat coordinate)%nat
                with (S (i - Z.to_nat (coordinate + 1)))%nat by lia; reflexivity
            | replace i with (Z.to_nat coordinate) by lia;
              rewrite Nat.sub_diag; apply list_lookup_insert_eq; lia
            | apply list_lookup_insert_ne; lia ].
Qed.

(** The load phase, on any array and at any coordinate: the barrier has
    completed its phase and the tile holds the box. *)
Lemma add_one_load_phase_any data coordinate :
  AddOne.load_phase (AddOne.create_1d_tensor_map AddOne.array_size AddOne.tile_size)
    coordinate (AddOne.initial data) =
  Some (tt, {| AddOne.blk_bar := Some {| bar_expected := 128; bar_arrived := 0;
                                         bar_tx := 0 |};
               AddOne.blk_bulk := [];
               AddOne.tile_shared :=
                 AddOne.load_tile
                   (AddOne.create_1d_tensor_map AddOne.array_size AddOne.tile_size)
                   data coordinate;
               AddOne.d_data := data |}).
Proof. cbv -[AddOne.load_tile AddOne.create_1d_tensor_map]. reflexivity. Qed.

Lemma add_one_store_phase_any tm coordinate s :
  AddOne.store_phase tm coordinate s =
  Some (tt, {| AddOne.blk_bar := AddOne.blk_bar s; AddOne.blk_bulk := AddOne.blk_bulk s;
               AddOne.tile_shared := AddOne.tile_shared s;
               AddOne.d_data :=
                 AddOne.store_tile tm (AddOne.d_data s) coordinate (AddOne.tile_shared s) |}).
Proof. cbv -[AddOne.store_tile]. reflexivity. Qed.

(** The copy-only kernel on any array and any tile. *)
Lemma add_one_kernel_any_tile (sched data : list Z) (t : Z) :
  Permutation sched all_tids ->
  Z.of_nat (length data) = AddOne.array_size ->
  0 <= t < AddOne.array_size / AddOne.tile_size ->
  exists s,
    AddOne.add_one_kernel sched
      (AddOne.create_1d_tensor_map AddOne.array_size AddOne.tile_size)
      (AddOne.tile_size * t) (AddOne.initial data) = Some (tt, s) /\
    Z.of_nat (length (AddOne.d_data s)) = AddOne.array_size /\
    forall i, 0 <= i < AddOne.array_size ->
      exists v, zlookup data i = Some v /\
        zlookup (AddOne.d_data s) i =
        Some (if i / AddOne.tile_size =? t then CInt.add v 1 else v).
Proof.
  intros Hperm Hlen Ht.
  destruct (schedule_once sched Hperm) as (_ & _ & Hvalid & _).
  set (tm := AddOne.create_1d_tensor_map AddOne.array_size AddOne.tile_size).
  set (tile := AddOne.load_tile tm data (AddOne.tile_size * t)).
  assert (Htile : length tile = 16%nat) by apply add_one_load_tile_length.
  unfold AddOne.add_one_kernel.
  unfold bind at 1. fold tm. rewrite add_one_load_phase_any. fold tm tile.
  unfold bind at 1. rewrite add_one_run_foldl;
    [|exact Hvalid | cbn [AddOne.tile_shared]; rewrite Htile; reflexivity].
  rewrite add_one_store_phase_any.
  cbn [AddOne.with_tile AddOne.tile_shared AddOne.d_data AddOne.blk_bar AddOne.blk_bulk].
  eexists. split; [reflexivity|]. cbn [AddOne.d_data].
  change (fun (t0 : list Z) (tid : Z) => add_one_step tid t0)
    with (fun (t0 : list Z) (j : Z) =>
            if (fun tid => tid <? AddOne.tile_size) j
            then alter (fun v => CInt.add v 1) (Z.to_nat j) t0 else t0).
  rewrite foldl_alter_all by (exact Hperm || (rewrite Htile; vm_compute; discriminate)).
  unfold AddOne.array_size, AddOne.tile_size in *. change (128 / 16) with 8 in Ht.
  destruct (add_one_store_tile_spec tm
              (imap (fun i v => if Z.of_nat i <? 16 then CInt.add v 1 else v) tile)
              data (16 * t)) as [Hlen' Hlook];
    [exact Hlen | lia | rewrite length_imap, Htile; cbn [AddOne.tm_len tm]; unfold AddOne.array_size, tm; cbn; lia |].
  split; [rewrite Hlen'; exact Hlen|].
  intros i Hi.
  destruct (zlookup_lt data i ltac:(lia)) as [v Hv]. exists v. split; [exact Hv|].
  rewrite zlookup_nat in * by lia.
  rewrite Hlook, length_imap, Htile, Z2Nat.id by lia.
  change (Z.of_nat 16) with 16.
  case_cmp; cbn [andb]; try exact Hv; try (exfalso; Z.div_mod_to_equations; lia).
  rewrite list_lookup_imap.
  unfold tile, tm. rewrite add_one_load_tile_lookup
    by (unfold AddOne.array_size, AddOne.tile_size; change (128 / 16) with 8; lia).
  unfold AddOne.tile_size.
  replace (Z.to_nat (16 * t) + (Z.to_nat i - Z.to_nat (16 * t)))%nat
    with (Z.to_nat i) by lia.
  rewrite Hv. cbn [fmap option_fmap option_map].
  case_cmp; [reflexivity | lia].
Qed.

(** X9: on any array of [array_size] integers and for any of its
    [array_size / tile_size] tiles, in whatever order the 128 threads
    reach their loop, the kernel launched at the first element of tile
    [t] returns; the array keeps its length, every element of tile [t]
    has been incremented once (a 32-bit [int] addition) and every
    other element is what it was. *)
Theorem add_one_kernel_changes_selected_tile (sched data : list Z) (t : Z) :
  Permutation sched all_tids ->
  Z.of_nat (length data) = AddOne.array_size ->
  0 <= t < AddOne.array_size / AddOne.tile_size ->
  exists s,
    AddOne.add_one_kernel sched
      (AddOne.create_1d_tensor_map AddOne.array_size AddOne.tile_size)
      (AddOne.tile_size * t) (AddOne.initial data) = Some (tt, s) /\
    Z.of_nat (length (AddOne.d_data s)) = AddOne.array_size /\
    forall i, 0 <= i < AddOne.array_size ->
      exists v, zlookup data i = Some v /\
        zlookup (AddOne.d_data s) i =
        Some (if i / AddOne.tile_size =? t then CInt.add v 1 else v).
Proof. apply add_one_kernel_any_tile. Qed.

Lemma add_one_kernel_changes_selected_tile_witness :
  exists s,
    AddOne.add_one_kernel (reverse all_tids)
      (AddOne.create_1d_tensor_map AddOne.array_size AddOne.tile_size)
      (AddOne.tile_size * 7) (AddOne.initial (replicate 128 CInt.INT_MAX)) = Some (tt, s) /\
    zlookup (AddOne.d_data s) 111 = Some CInt.INT_MAX /\
    zlookup (AddOne.d_data s) 112 = Some CInt.INT_MIN /\
    zlookup (AddOne.d_data s) 127 = Some CInt.INT_MIN.
Proof.
  destruct (add_one_kernel_changes_selected_tile (reverse all_tids)
              (replicate 128 CInt.INT_MAX) 7 (reverse_Permutation all_tids)
              ltac:(reflexivity)
              ltac:(change (AddOne.array_size / AddOne.tile_size) with 8; lia))
    as (s & Hrun & _ & Hout).
  exists s. split; [exact Hrun|].
  split_and!.
  - destruct (Hout 111 ltac:(unfold AddOne.array_size; lia)) as (v & Hv & ->).
    vm_compute in Hv. injection Hv as <-. reflexivity.
  - destruct (Hout 112 ltac:(unfold AddOne.array_size; lia)) as (v & Hv & ->).
    vm_compute in Hv. injection Hv as <-. reflexivity.
  - destruct (Hout 127 ltac:(unfold AddOne.array_size; lia)) as (v & Hv & ->).
    vm_compute in Hv. injection Hv as <-. reflexivity.
Defined.

(** X10: one thread of the copy-only kernel: its loop runs the body once,
    whatever fuel it is given, and touches nothing but
    [tile_shared[threadIdx.x]]; a thread whose id is not below
    [tile_size] changes nothing at all. *)
Theorem add_one_thread_touches_own_element tid fuel s :
  valid_tid tid -> (0 < fuel)%nat ->
  Z.of_nat (length (AddOne.tile_shared s)) = AddOne.tile_size ->
  exists s',
    AddOne.thread_loop fuel tid s = Some (tt, s') /\
    AddOne.blk_bar s' = AddOne.blk_bar s /\ AddOne.blk_bulk s' = AddOne.blk_bulk s /\
    AddOne.d_data s' = AddOne.d_data s /\
    length (AddOne.tile_shared s') = length (AddOne.tile_shared s) /\
    (forall j, j <> Z.to_nat tid ->
       AddOne.tile_shared s' !! j = AddOne.tile_shared s !! j) /\
    (tid < AddOne.tile_size ->
       zlookup (AddOne.tile_shared s') tid =
       (fun v => CInt.add v 1) <$> zlookup (AddOne.tile_shared s) tid) /\
    (AddOne.tile_size <= tid -> s' = s).
Proof.
  intros Hv Hfuel Hlen. pose proof Hv as Hv'.
  unfold valid_tid in Hv'. rewrite threads_per_block_eq in Hv'.
  destruct fuel as [|fuel]; [lia|].
  assert (Hrun : AddOne.thread_loop (S fuel) tid s =
                 Some (tt, AddOne.with_tile (add_one_step tid (AddOne.tile_shared s)) s)).
  { rewrite add_one_loop_step by (unfold AddOne.array_size; lia).
    assert (Hnext : CInt.add tid AddOne.blockDim = tid + 128).
    { apply cint_add_small.
      unfold CInt.in_range, CInt.INT_MIN, CInt.INT_MAX, AddOne.blockDim. lia. }
    rewrite Hnext. unfold bind, add_one_step.
    destruct (Z.ltb_spec tid AddOne.tile_size) as [Hlt|Hge].
    - unfold AddOne.tile_add_one.
      destruct (zlookup_lt (AddOne.tile_shared s) tid) as [v Hv'']; [lia|].
      rewrite Hv''. unfold mbind, option_bind. rewrite zstore_Some by lia.
      rewrite add_one_loop_exit by (unfold AddOne.array_size; lia).
      do 3 f_equal. apply list_eq. intros j.
      rewrite zlookup_nat in Hv'' by lia.
      destruct (decide (Z.to_nat tid = j)) as [<-|Hne].
      + rewrite list_lookup_insert_eq by (apply lookup_lt_Some in Hv''; exact Hv'').
        rewrite list_lookup_alter_eq, Hv''. reflexivity.
      + rewrite list_lookup_insert_ne, list_lookup_alter_ne by exact Hne. reflexivity.
    - cbn [ret]. rewrite add_one_loop_exit by (unfold AddOne.array_size; lia).
      destruct s; reflexivity. }
  eexists. split; [exact Hrun|].
  cbn [AddOne.with_tile AddOne.blk_bar AddOne.blk_bulk AddOne.d_data AddOne.tile_shared].
  split_and!; try reflexivity.
  - apply add_one_step_length.
  - intros j Hj. unfold add_one_step.
    destruct (tid <? AddOne.tile_size); [|reflexivity].
    apply list_lookup_alter_ne. congruence.
  - intros Hlt. unfold add_one_step.
    destruct (Z.ltb_spec tid AddOne.tile_size); [|lia].
    rewrite !zlookup_nat by lia. apply list_lookup_alter_eq.
  - intros Hge. unfold add_one_step.
    destruct (Z.ltb_spec tid AddOne.tile_size); [lia|].
    destruct s; reflexivity.
Qed.

Lemma add_one_thread_touches_own_element_witness :
  AddOne.thread_loop 1 100 (AddOne.initial AddOne.h_data) =
    Some (tt, AddOne.initial AddOne.h_data) /\
  exists s', AddOne.thread_loop 1 3 (AddOne.initial AddOne.h_data) = Some (tt, s') /\
             zlookup (AddOne.tile_shared s') 3 = Some 1.
Proof.
  assert (H100 : valid_tid 100) by (unfold valid_tid; rewrite threads_per_block_eq; lia).
  assert (H3 : valid_tid 3) by (unfold valid_tid; rewrite threads_per_block_eq; lia).
  split.
  - destruct (add_one_thread_touches_own_element 100 1 (AddOne.initial AddOne.h_data)
                H100 ltac:(lia) ltac:(reflexivity))
      as (s' & Hrun & _ & _ & _ & _ & _ & _ & Hsame).
    rewrite Hrun, (Hsame ltac:(unfold AddOne.tile_size; lia)). reflexivity.
  - destruct (add_one_thread_touches_own_element 3 1 (AddOne.initial AddOne.h_data)
                H3 ltac:(lia) ltac:(reflexivity))
      as (s' & Hrun & _ & _ & _ & _ & _ & Hown & _).
    exists s'. split; [exact Hrun|].
    rewrite (Hown ltac:(unfold AddOne.tile_size; lia)). reflexivity.
Defined.

(** ** The two-dimensional copy kernel *)

Lemma tma2d_box_index_inside tx ty (j : nat) :
  0 <= tx < 4 -> 0 <= ty < 4 -> (j < 128)%nat ->
  Tma2d.box_index (Tma2d.create_2d_tensor_map 64 32 16 8) (8 * tx) (16 * ty) j =
  Some (32 * (16 * ty + Z.of_nat j / 8) + (8 * tx + Z.of_nat j mod 8)).
Proof.
  intros Htx Hty Hj. unfold Tma2d.box_index.
  cbn [Tma2d.create_2d_tensor_map Tma2d.map_rows Tma2d.map_cols Tma2d.box_rows
       Tma2d.box_cols].
  case_cmp; cbn [andb]; try (exfalso; Z.div_mod_to_equations; lia).
  f_equal. lia.
Qed.

Lemma tma2d_load_box_length tm data x y :
  length (Tma2d.load_box tm data x y) = Z.to_nat (Tma2d.box_rows tm * Tma2d.box_cols tm).
Proof. unfold Tma2d.load_box. rewrite length_fmap, length_seq. reflexivity. Qed.

Lemma tma2d_load_box_lookup data tx ty (j : nat) :
  Z.of_nat (length data) = 2048 ->
  0 <= tx < 4 -> 0 <= ty < 4 -> (j < 128)%nat ->
  Tma2d.load_box (Tma2d.create_2d_tensor_map 64 32 16 8) data (8 * tx) (16 * ty) !! j =
  data !! Z.to_nat (32 * (16 * ty + Z.of_nat j / 8) + (8 * tx + Z.of_nat j mod 8)).
Proof.
  intros Hlen Htx Hty Hj. unfold Tma2d.load_box.
  rewrite list_lookup_fmap, lookup_seq_lt
    by (cbn [Tma2d.create_2d_tensor_map Tma2d.box_rows Tma2d.box_cols];
        change (Z.to_nat (16 * 8)) with 128%nat; lia).
  cbn [fmap option_fmap option_map Nat.add].
  rewrite tma2d_box_index_inside by assumption.
  cbn [mbind option_bind].
  set (i := 32 * (16 * ty + Z.of_nat j / 8) + (8 * tx + Z.of_nat j mod 8)).
  assert (Hi : 0 <= i < 2048) by (subst i; Z.div_mod_to_equations; lia).
  rewrite zlookup_nat by lia.
  destruct (lookup_lt_is_Some_2 data (Z.to_nat i) ltac:(lia)) as [v ->].
  reflexivity.
Qed.

(** A box that lies on a tile of the matrix replaces that tile, element
    [j] of the buffer going to row [j / 8] and column [j % 8] of it. *)
Lemma tma2d_store_box_spec tx ty buf :
  0 <= tx < 4 -> 0 <= ty < 4 ->
  forall (j : nat) gmem,
    Z.of_nat (length gmem) = 2048 -> (j + length buf = 128)%nat ->
    length (Tma2d.store_box (Tma2d.create_2d_tensor_map 64 32 16 8) gmem
              (8 * tx) (16 * ty) j buf) = length gmem /\
    forall r c, 0 <= r < 64 -> 0 <= c < 32 ->
      Tma2d.store_box (Tma2d.create_2d_tensor_map 64 32 16 8) gmem
        (8 * tx) (16 * ty) j buf !! Z.to_nat (32 * r + c) =
      if (r / 16 =? ty) && (c / 8 =? tx) &&
         (Z.of_nat j <=? 8 * (r - 16 * ty) + (c - 8 * tx))
      then buf !! (Z.to_nat (8 * (r - 16 * ty) + (c - 8 * tx)) - j)%nat
      else gmem !! Z.to_nat (32 * r + c).
Proof.
  intros Htx Hty. induction buf as [|v buf IH]; intros j gmem Hlen Hj.
  - cbn [Tma2d.store_box]. split; [reflexivity|]. intros r c Hr Hc.
    cbn [length] in Hj.
    case_cmp; cbn [andb]; try reflexivity. exfalso. Z.div_mod_to_equations. lia.
  - cbn [length] in Hj. cbn [Tma2d.store_box].
    rewrite tma2d_box_index_inside by (assumption || lia).
    set (i := 32 * (16 * ty + Z.of_nat j / 8) + (8 * tx + Z.of_nat j mod 8)).
    assert (Hi : 0 <= i < 2048) by (subst i; Z.div_mod_to_equations; lia).
    rewrite zstore_Some by lia. cbn [default from_option id]. cbv zeta. unfold id.
    destruct (IH (S j) (<[Z.to_nat i := v]> gmem)) as [IHlen IHi];
      [rewrite length_insert; exact Hlen | lia |].
    split; [rewrite IHlen; apply length_insert|].
    intros r c Hr Hc. rewrite IHi by assumption.
    case_cmp; cbn [andb]; try lia;
      first [ replace (Z.to_nat (8 * (r - 16 * ty) + (c - 8 * tx)) - j)%nat
                with (S (Z.to_nat (8 * (r - 16 * ty) + (c - 8 * tx)) - S j))%nat by lia;
              reflexivity
            | replace (Z.to_nat (8 * (r - 16 * ty) + (c - 8 * tx)) - j)%nat
                with 0%nat by lia;
              replace (32 * r + c) with i by (subst i; Z.div_mod_to_equations; lia);
              apply list_lookup_insert_eq; lia
            | apply list_lookup_insert_ne; subst i; Z.div_mod_to_equations; lia ].
Qed.

Lemma tma2d_loop_exit fuel i s :
  Tma2d.buf_len <= i -> Tma2d.thread_loop fuel i s = Some (tt, s).
Proof.
  intros Hi. destruct fuel; cbn [Tma2d.thread_loop];
    destruct (Z.ltb_spec i Tma2d.buf_len); (lia || reflexivity).
Qed.

Lemma tma2d_loop_step fuel i :
  i < Tma2d.buf_len ->
  Tma2d.thread_loop (S fuel) i =
  (Tma2d.smem_add_one i >>> Tma2d.thread_loop fuel (CInt.add i Tma2d.blockDim))%exec.
Proof.
  intros Hi. cbn [Tma2d.thread_loop].
  destruct (Z.ltb_spec i Tma2d.buf_len); [reflexivity | lia].
Qed.

(** A thread of the block runs the loop body once, at [i = threadIdx.x]. *)
Lemma tma2d_thread_spec tid s :
  valid_tid tid -> Z.of_nat (length (Tma2d.smem_buffer s)) = Tma2d.buf_len ->
  Tma2d.thread_loop Tma2d.loop_fuel tid s =
  Some (tt, Tma2d.with_smem
              (alter (fun v => CInt.add v 1) (Z.to_nat tid) (Tma2d.smem_buffer s)) s).
Proof.
  unfold valid_tid. rewrite threads_per_block_eq. change Tma2d.buf_len with 128.
  intros Hv Hlen. change Tma2d.loop_fuel with (S 127).
  rewrite tma2d_loop_step by (change Tma2d.buf_len with 128; lia).
  assert (Hnext : CInt.add tid Tma2d.blockDim = tid + 128).
  { apply cint_add_small.
    unfold CInt.in_range, CInt.INT_MIN, CInt.INT_MAX, Tma2d.blockDim. lia. }
  rewrite Hnext. unfold bind, Tma2d.smem_add_one.
  destruct (zlookup_lt (Tma2d.smem_buffer s) tid) as [v Hv']; [lia|].
  rewrite Hv'. unfold mbind, option_bind. rewrite zstore_Some by lia.
  rewrite tma2d_loop_exit by (change Tma2d.buf_len with 128; lia).
  do 3 f_equal. apply list_eq. intros j.
  rewrite zlookup_nat in Hv' by lia.
  destruct (decide (Z.to_nat tid = j)) as [<-|Hne].
  - rewrite list_lookup_insert_eq by (apply lookup_lt_Some in Hv'; exact Hv').
    rewrite list_lookup_alter_eq, Hv'. reflexivity.
  - rewrite list_lookup_insert_ne, list_lookup_alter_ne by exact Hne. reflexivity.
Qed.

Lemma tma2d_run_foldl sched s :
  Forall valid_tid sched ->
  Z.of_nat (length (Tma2d.smem_buffer s)) = Tma2d.buf_len ->
  for_each sched (fun tid => Tma2d.thread_loop Tma2d.loop_fuel tid) s =
  Some (tt, Tma2d.with_smem
              (foldl (fun b tid => alter (fun v => CInt.add v 1) (Z.to_nat tid) b)
                 (Tma2d.smem_buffer s) sched) s).
Proof.
  intros Hall. revert s. induction Hall as [|tid rest Hv _ IH]; intros s Hlen.
  - destruct s; reflexivity.
  - cbn [for_each foldl]. unfold bind. rewrite tma2d_thread_spec by assumption.
    rewrite IH by (cbn [Tma2d.with_smem Tma2d.smem_buffer];
                   rewrite length_alter; exact Hlen).
    reflexivity.
Qed.

Lemma tma2d_load_phase_any data x y :
  Tma2d.load_phase (Tma2d.create_2d_tensor_map 64 32 16 8) x y (Tma2d.initial data) =
  Some (tt, {| Tma2d.blk_bar := Some {| bar_expected := 128; bar_arrived := 0;
                                        bar_tx := 0 |};
               Tma2d.blk_bulk := [];
               Tma2d.smem_buffer :=
                 Tma2d.load_box (Tma2d.create_2d_tensor_map 64 32 16 8) data x y;
               Tma2d.tensor := data |}).
Proof. cbv -[Tma2d.load_box]. reflexivity. Qed.

Lemma tma2d_store_phase_any tm x y s :
  Tma2d.store_phase tm x y s =
  Some (tt, {| Tma2d.blk_bar := Tma2d.blk_bar s; Tma2d.blk_bulk := Tma2d.blk_bulk s;
               Tma2d.smem_buffer := Tma2d.smem_buffer s;
               Tma2d.tensor :=
                 Tma2d.store_box tm (Tma2d.tensor s) x y 0 (Tma2d.smem_buffer s) |}).
Proof. cbv -[Tma2d.store_box]. reflexivity. Qed.

(** The update loop of all threads, in any order. *)
Lemma tma2d_update_any_order (sched : list Z) (s : Tma2d.Block) :
  Permutation sched all_tids ->
  Z.of_nat (length (Tma2d.smem_buffer s)) = Tma2d.buf_len ->
  for_each sched (fun tid => Tma2d.thread_loop Tma2d.loop_fuel tid) s =
  Some (tt, Tma2d.with_smem ((fun v => CInt.add v 1) <$> Tma2d.smem_buffer s) s).
Proof.
  intros Hperm Hlen. destruct (schedule_once sched Hperm) as (_ & _ & Hvalid & _).
  rewrite tma2d_run_foldl by assumption. do 3 f_equal.
  change (fun (b : list Z) (tid : Z) => alter (fun v => CInt.add v 1) (Z.to_nat tid) b)
    with (fun (b : list Z) (j : Z) =>
            if (fun _ : Z => true) j
            then alter (fun v => CInt.add v 1) (Z.to_nat j) b else b).
  rewrite foldl_alter_all by (exact Hperm || (rewrite Hlen; vm_compute; discriminate)).
  apply list_eq. intros i. rewrite list_lookup_imap, list_lookup_fmap. reflexivity.
Qed.

(** X12: the update of the two-dimensional kernel, on its own: when each of
    the 128 threads has run its loop, in any order, every element of
    the 128-element buffer has been incremented exactly once. *)
Theorem tma2d_update_increments_every_element (sched : list Z) (s : Tma2d.Block) :
  Permutation sched all_tids ->
  Z.of_nat (length (Tma2d.smem_buffer s)) = Tma2d.buf_len ->
  for_each sched (fun tid => Tma2d.thread_loop Tma2d.loop_fuel tid) s =
  Some (tt, Tma2d.with_smem ((fun v => CInt.add v 1) <$> Tma2d.smem_buffer s) s).
Proof. apply tma2d_update_any_order. Qed.

Lemma tma2d_update_increments_every_element_witness :
  for_each (reverse all_tids) (fun tid => Tma2d.thread_loop Tma2d.loop_fuel tid)
    (Tma2d.initial []) =
  Some (tt, Tma2d.with_smem (replicate 128 1) (Tma2d.initial [])).
Proof.
  rewrite (tma2d_update_increments_every_element (reverse all_tids) (Tma2d.initial [])
             (reverse_Permutation all_tids) ltac:(reflexivity)).
  reflexivity.
Defined.

(** X13: on any matrix of [M] by [K] integers and for any of its tiles of
    [m] by [k], in whatever order the 128 threads reach their loop,
    the kernel launched at the corner of tile ([ty], [tx]), column
    coordinate first, returns; the matrix keeps its size, every
    element of that tile has been incremented once (a 32-bit [int]
    addition) and every other element is what it was. *)
Theorem tma2d_test_changes_selected_tile (sched data : list Z) (ty tx : Z) :
  Permutation sched all_tids ->
  Z.of_nat (length data) = Tma2d.gmem_len ->
  0 <= ty < Tma2d.M / Tma2d.m -> 0 <= tx < Tma2d.K / Tma2d.k ->
  exists s,
    Tma2d.test sched (Tma2d.create_2d_tensor_map Tma2d.M Tma2d.K Tma2d.m Tma2d.k)
      (Tma2d.k * tx) (Tma2d.m * ty) (Tma2d.initial data) = Some (tt, s) /\
    Z.of_nat (length (Tma2d.tensor s)) = Tma2d.gmem_len /\
    forall r c, 0 <= r < Tma2d.M -> 0 <= c < Tma2d.K ->
      exists v, zlookup data (r * Tma2d.K + c) = Some v /\
        zlookup (Tma2d.tensor s) (r * Tma2d.K + c) =
        Some (if (r / Tma2d.m =? ty) && (c / Tma2d.k =? tx) then CInt.add v 1 else v).
Proof.
  change Tma2d.gmem_len with 2048. change (Tma2d.M / Tma2d.m) with 4.
  change (Tma2d.K / Tma2d.k) with 4.
  change Tma2d.M with 64. change Tma2d.K with 32.
  change Tma2d.m with 16. change Tma2d.k with 8.
  intros Hperm Hlen Hty Htx.
  set (tm := Tma2d.create_2d_tensor_map 64 32 16 8).
  set (box := Tma2d.load_box tm data (8 * tx) (16 * ty)).
  assert (Hbox : length box = 128%nat) by apply tma2d_load_box_length.
  unfold Tma2d.test.
  unfold bind at 1. fold tm. unfold tm at 1. rewrite tma2d_load_phase_any. fold tm box.
  unfold bind at 1. rewrite tma2d_update_any_order;
    [|exact Hperm | cbn [Tma2d.smem_buffer]; rewrite Hbox; reflexivity].
  rewrite tma2d_store_phase_any.
  cbn [Tma2d.with_smem Tma2d.smem_buffer Tma2d.tensor Tma2d.blk_bar Tma2d.blk_bulk].
  eexists. split; [reflexivity|]. cbn [Tma2d.tensor].
  destruct (tma2d_store_box_spec tx ty ((fun v => CInt.add v 1) <$> box) Htx Hty 0 data)
    as [Hlen' Hlook]; [exact Hlen | rewrite length_fmap, Hbox; reflexivity |].
  fold tm in Hlen', Hlook.
  split; [rewrite Hlen'; exact Hlen|].
  intros r c Hr Hc.
  destruct (zlookup_lt data (r * 32 + c) ltac:(lia)) as [v Hv]. exists v.
  split; [exact Hv|].
  rewrite zlookup_nat in * by lia.
  replace (r * 32 + c) with (32 * r + c) in * by lia.
  rewrite Hlook by assumption. change (Z.of_nat 0) with 0.
  case_cmp; cbn [andb]; try exact Hv; try (exfalso; Z.div_mod_to_equations; lia).
  rewrite Nat.sub_0_r, list_lookup_fmap.
  unfold box, tm. rewrite tma2d_load_box_lookup
    by (try assumption; Z.div_mod_to_equations; lia).
  replace (32 * (16 * ty + Z.of_nat (Z.to_nat (8 * (r - 16 * ty) + (c - 8 * tx))) / 8) +
           (8 * tx + Z.of_nat (Z.to_nat (8 * (r - 16 * ty) + (c - 8 * tx))) mod 8))
    with (32 * r + c) by (Z.div_mod_to_equations; lia).
  rewrite Hv. reflexivity.
Qed.

Lemma tma2d_test_changes_selected_tile_witness :
  exists out,
    Tma2d.main (reverse all_tids) (replicate 2048 5) = Some out /\
    zlookup out (47 * Tma2d.K + 24) = Some 5 /\
    zlookup out (48 * Tma2d.K + 23) = Some 5 /\
    zlookup out (48 * Tma2d.K + 24) = Some 6 /\
    zlookup out (63 * Tma2d.K + 31) = Some 6.
Proof.
  destruct (tma2d_test_changes_selected_tile (reverse all_tids) (replicate 2048 5) 3 3
              (reverse_Permutation all_tids) ltac:(reflexivity)
              ltac:(change (Tma2d.M / Tma2d.m) with 4; lia)
              ltac:(change (Tma2d.K / Tma2d.k) with 4; lia))
    as (s & Hrun & _ & Hout).
  exists (Tma2d.tensor s). split.
  - unfold Tma2d.main.
    change Tma2d.coordinate_k with (Tma2d.k * 3).
    change Tma2d.coordinate_m with (Tma2d.m * 3).
    rewrite Hrun. reflexivity.
  - split_and!.
    + destruct (Hout 47 24 ltac:(unfold Tma2d.M; lia) ltac:(unfold Tma2d.K; lia))
        as (v & Hv & ->).
      vm_compute in Hv. injection Hv as <-. reflexivity.
    + destruct (Hout 48 23 ltac:(unfold Tma2d.M; lia) ltac:(unfold Tma2d.K; lia))
        as (v & Hv & ->).
      vm_compute in Hv. injection Hv as <-. reflexivity.
    + destruct (Hout 48 24 ltac:(unfold Tma2d.M; lia) ltac:(unfold Tma2d.K; lia))
        as (v & Hv & ->).
      vm_compute in Hv. injection Hv as <-. reflexivity.
    + destruct (Hout 63 31 ltac:(unfold Tma2d.M; lia) ltac:(unfold Tma2d.K; lia))
        as (v & Hv & ->).
      vm_compute in Hv. injection Hv as <-. reflexivity.
Defined.

(** ** Launches one after the other *)

Lemma add_one_launch_Some sched t data s :
  AddOne.add_one_kernel sched
    (AddOne.create_1d_tensor_map AddOne.array_size AddOne.tile_size)
    (AddOne.tile_size * t) (AddOne.initial data) = Some (tt, s) ->
  add_one_launch sched t data = Some (AddOne.d_data s).
Proof. intros H. unfold add_one_launch. rewrite H. reflexivity. Qed.

(** X11: two launches of the copy-only kernel, on any two tiles, one after
    the other: both return, the order of the two launches does not
    matter, and every element has been incremented once for each of
    the two launches that selected its tile. *)
Theorem add_one_launches_commute (s1 s2 s3 s4 data : list Z) (t1 t2 : Z) :
  Permutation s1 all_tids -> Permutation s2 all_tids ->
  Permutation s3 all_tids -> Permutation s4 all_tids ->
  Z.of_nat (length data) = AddOne.array_size ->
  0 <= t1 < AddOne.array_size / AddOne.tile_size ->
  0 <= t2 < AddOne.array_size / AddOne.tile_size ->
  exists out,
    add_one_launch s1 t1 data ≫= add_one_launch s2 t2 = Some out /\
    add_one_launch s3 t2 data ≫= add_one_launch s4 t1 = Some out /\
    Z.of_nat (length out) = AddOne.array_size /\
    forall i, 0 <= i < AddOne.array_size ->
      exists v, zlookup data i = Some v /\
        zlookup out i =
        Some (let v1 := if i / AddOne.tile_size =? t1 then CInt.add v 1 else v in
              if i / AddOne.tile_size =? t2 then CInt.add v1 1 else v1).
Proof.
  intros H1 H2 H3 H4 Hlen Ht1 Ht2.
  destruct (add_one_kernel_any_tile s1 data t1 H1 Hlen Ht1) as (a & Ha & Halen & Hai).
  destruct (add_one_kernel_any_tile s2 (AddOne.d_data a) t2 H2 Halen Ht2)
    as (b & Hb & Hblen & Hbi).
  destruct (add_one_kernel_any_tile s3 data t2 H3 Hlen Ht2) as (a' & Ha' & Halen' & Hai').
  destruct (add_one_kernel_any_tile s4 (AddOne.d_data a') t1 H4 Halen' Ht1)
    as (b' & Hb' & Hblen' & Hbi').
  assert (Hout : forall i, 0 <= i < AddOne.array_size ->
            exists v, zlookup data i = Some v /\
              zlookup (AddOne.d_data b) i =
              Some (let v1 := if i / AddOne.tile_size =? t1 then CInt.add v 1 else v in
                    if i / AddOne.tile_size =? t2 then CInt.add v1 1 else v1)).
  { intros i Hi. destruct (Hai i Hi) as (v & Hv & Hva).
    destruct (Hbi i Hi) as (w & Hw & Hwb). exists v. split; [exact Hv|].
    rewrite Hwb. rewrite Hva in Hw. injection Hw as <-. reflexivity. }
  assert (Heq : AddOne.d_data b' = AddOne.d_data b).
  { apply list_eq. intros j.
    destruct (decide (Z.of_nat j < AddOne.array_size)) as [Hj|Hj].
    - destruct (Hout (Z.of_nat j) ltac:(lia)) as (v & Hv & Hvb).
      destruct (Hai' (Z.of_nat j) ltac:(lia)) as (v' & Hv' & Hva').
      destruct (Hbi' (Z.of_nat j) ltac:(lia)) as (w & Hw & Hwb').
      rewrite Hv in Hv'. injection Hv' as <-.
      rewrite Hva' in Hw. injection Hw as <-.
      rewrite zlookup_nat, Nat2Z.id in Hvb, Hwb' by lia.
      rewrite Hvb, Hwb'. cbv zeta. f_equal.
      destruct (Z.of_nat j / AddOne.tile_size =? t1),
               (Z.of_nat j / AddOne.tile_size =? t2); reflexivity.
    - rewrite !lookup_ge_None_2 by lia. reflexivity. }
  exists (AddOne.d_data b).
  rewrite (add_one_launch_Some _ _ _ _ Ha), (add_one_launch_Some _ _ _ _ Ha').
  cbn [mbind option_bind].
  rewrite (add_one_launch_Some _ _ _ _ Hb), (add_one_launch_Some _ _ _ _ Hb').
  split_and!; [reflexivity | rewrite Heq; reflexivity | exact Hblen | exact Hout].
Qed.

Lemma add_one_launches_commute_witness :
  exists out,
    add_one_launch all_tids 0 AddOne.h_data ≫= add_one_launch (reverse all_tids) 7
      = Some out /\
    add_one_launch (reverse all_tids) 7 AddOne.h_data ≫= add_one_launch all_tids 0
      = Some out /\
    zlookup out 0 = Some 1 /\ zlookup out 16 = Some 16 /\ zlookup out 127 = Some 128.
Proof.
  destruct (add_one_launches_commute all_tids (reverse all_tids) (reverse all_tids) all_tids
              AddOne.h_data 0 7
              ltac:(reflexivity) (reverse_Permutation all_tids)
              (reverse_Permutation all_tids) ltac:(reflexivity) ltac:(reflexivity)
              ltac:(change (AddOne.array_size / AddOne.tile_size) with 8; lia)
              ltac:(change (AddOne.array_size / AddOne.tile_size) with 8; lia))
    as (out & H07 & H70 & _ & Hout).
  exists out. split_and!; [exact H07 | exact H70 | | |].
  - destruct (Hout 0 ltac:(unfold AddOne.array_size; lia)) as (v & Hv & ->).
    rewrite h_data_lookup in Hv by (unfold AddOne.array_size; lia).
    injection Hv as <-. reflexivity.
  - destruct (Hout 16 ltac:(unfold AddOne.array_size; lia)) as (v & Hv & ->).
    rewrite h_data_lookup in Hv by (unfold AddOne.array_size; lia).
    injection Hv as <-. reflexivity.
  - destruct (Hout 127 ltac:(unfold AddOne.array_size; lia)) as (v & Hv & ->).
    rewrite h_data_lookup in Hv by (unfold AddOne.array_size; lia).
    injection Hv as <-. reflexivity.
Defined.

(** ** The output buffer *)





